(** * Telegram ticker digest (app.py): model and verification

    The program stores incoming chat messages in an SQLite table with a unique
    index on (chat_id, message_id), extracts ticker-like tokens from message
    texts with a regular expression, and renders a ranked daily digest.

    Python text is modelled as a sequence of Unicode code points.  What the
    interpreter's Unicode database says about code points above 127 (which of
    them are alphanumeric, what they turn into under [str.upper]) is not part
    of the program; it is the class [UnicodeData] below, and every definition
    that needs it is parametric in it. *)

From Stdlib Require Import Ascii String.
From Stdlib Require Import List NArith ZArith Bool Arith Lia.
From Stdlib Require Import Permutation Sorted.
Import ListNotations.
Local Open Scope list_scope.

(** ** Text *)

Definition char := N.
Definition pystr := list char.

(** An ASCII literal of the source, as code points. *)
Definition lit (s : string) : pystr := map N_of_ascii (list_ascii_of_string s).

Fixpoint pystr_eqb (a b : pystr) : bool :=
  match a, b with
  | [], [] => true
  | x :: a', y :: b' => (x =? y)%N && pystr_eqb a' b'
  | _, _ => false
  end.

Definition in_range (lo hi c : N) : bool := ((lo <=? c) && (c <=? hi))%N.

Definition is_ascii_upper (c : char) : bool := in_range 65 90 c.
Definition is_ascii_lower (c : char) : bool := in_range 97 122 c.
Definition is_ascii_digit (c : char) : bool := in_range 48 57 c.

(** [str.isspace] for one code point: the white-space code points of the
    interpreter's table, which is a short fixed list. *)
Definition isspace (c : char) : bool :=
  in_range 9 13 c || in_range 28 32 c
  || (c =? 133)%N || (c =? 160)%N || (c =? 5760)%N
  || in_range 8192 8202 c
  || (c =? 8232)%N || (c =? 8233)%N || (c =? 8239)%N || (c =? 8287)%N
  || (c =? 12288)%N.

(** The part of the Unicode database the program depends on, for code points
    above 127: [str.isalnum] (behind the [\w] and [\b] of [re]) and the full
    upper-case mapping of [str.upper], which may give several code points. *)
Class UnicodeData := {
  uni_isalnum : char -> bool;
  uni_upper : char -> pystr
}.

(** A table in which no code point above 127 is alphanumeric or cased.  It
    agrees with the interpreter's on every text of ASCII characters. *)
Definition basic_latin : UnicodeData :=
  {| uni_isalnum := fun _ => false; uni_upper := fun c => [c] |}.

(** Decimal rendering of a natural number ([str(n)], [%d]): [digits w n] is
    the last [w] decimal digits of [n], most significant first, and
    [nb_digits] counts the digits of [n], the binary logarithm bounding the
    number of divisions. *)
Definition digit_char (n : N) : char := (48 + n mod 10)%N.

Fixpoint digits (w : nat) (n : N) : pystr :=
  match w with
  | O => []
  | S w' => digits w' (n / 10) ++ [digit_char n]
  end.

Fixpoint nb_digits (fuel : nat) (n : N) : nat :=
  match fuel with
  | O => 1
  | S fuel' => if (n <? 10)%N then 1 else S (nb_digits fuel' (n / 10))
  end.

Definition decimal (n : N) : pystr :=
  digits (nb_digits (N.to_nat (N.log2 n)) n) n.

(** [%0wd]: the decimal digits, padded with zeros on the left up to width
    [w]. *)
Definition zfill (w : nat) (n : N) : pystr :=
  let d := decimal n in repeat 48%N (w - length d) ++ d.

(** [str.strip()], [str.replace("\n", " ")], ["\n".join(lines)]. *)
Fixpoint lstrip (s : pystr) : pystr :=
  match s with
  | c :: s' => if isspace c then lstrip s' else s
  | [] => []
  end.

Definition rstrip (s : pystr) : pystr := rev (lstrip (rev s)).
Definition strip (s : pystr) : pystr := rstrip (lstrip s).

Definition newline : char := 10%N.
Definition space : char := 32%N.

Definition replace_newlines (s : pystr) : pystr :=
  map (fun c => if (c =? newline)%N then space else c) s.

Fixpoint join_lines (lines : list pystr) : pystr :=
  match lines with
  | [] => []
  | [l] => l
  | l :: rest => l ++ newline :: join_lines rest
  end.

Section Extraction.
Context {U : UnicodeData}.

(** [\w] of a str pattern: alphanumeric or underscore. *)
Definition isalnum (c : char) : bool :=
  if (c <? 128)%N then is_ascii_upper c || is_ascii_lower c || is_ascii_digit c
  else uni_isalnum c.

Definition is_word (c : char) : bool := isalnum c || (c =? 95)%N.

(** [str.upper()]: code point by code point. *)
Definition upper_char (c : char) : pystr :=
  if is_ascii_lower c then [(c - 32)%N]
  else if (c <? 128)%N then [c]
  else uni_upper c.

Definition upper (s : pystr) : pystr := flat_map upper_char s.

(** ** Regular expressions

    The constructs [TICKER_REGEX] is written with, and a backtracking matcher
    for them.  A matcher state is a position in the subject: the characters
    before it (nearest first), the characters after it, and the groups
    captured so far.  [run r st] lists every way [r] can match at [st], in the
    order a backtracking engine tries them, so that its head is the match the
    engine reports. *)

Inductive regex : Type :=
| Chr (c : char)
| CharSet (p : char -> bool)
| WordBoundary
| Cat (r1 r2 : regex)
| Alt (r1 r2 : regex)
| Opt (r : regex)
| Repeat (lo hi : nat) (r : regex)
| Group (n : nat) (r : regex).

Record mstate : Type := MState {
  before : pystr;
  after : pystr;
  groups : list (nat * pystr)
}.

Definition word_at (o : option char) : bool :=
  match o with Some c => is_word c | None => false end.

Definition at_boundary (st : mstate) : bool :=
  xorb (word_at (hd_error (before st))) (word_at (hd_error (after st))).

Definition eat (p : char -> bool) (st : mstate) : list mstate :=
  match after st with
  | c :: rest => if p c then [MState (c :: before st) rest (groups st)] else []
  | [] => []
  end.

(** The text between two positions of one subject, [st] the earlier. *)
Definition consumed (st st' : mstate) : pystr :=
  firstn (length (after st) - length (after st')) (after st).

Definition set_group (n : nat) (s : pystr) (st : mstate) : mstate :=
  MState (before st) (after st) ((n, s) :: groups st).

(** Greedy [{lo,hi}]: one more repetition is tried before stopping. *)
Fixpoint repeat_greedy (step : mstate -> list mstate) (lo hi : nat)
    (st : mstate) : list mstate :=
  match hi with
  | O => match lo with O => [st] | S _ => [] end
  | S hi' =>
      flat_map (repeat_greedy step (pred lo) hi') (step st)
      ++ match lo with O => [st] | S _ => [] end
  end.

Fixpoint run (r : regex) (st : mstate) : list mstate :=
  match r with
  | Chr c => eat (N.eqb c) st
  | CharSet p => eat p st
  | WordBoundary => if at_boundary st then [st] else []
  | Cat r1 r2 => flat_map (run r2) (run r1 st)
  | Alt r1 r2 => run r1 st ++ run r2 st
  | Opt r1 => run r1 st ++ [st]
  | Repeat lo hi r1 => repeat_greedy (run r1) lo hi st
  | Group n r1 => map (fun st' => set_group n (consumed st st') st') (run r1 st)
  end.

(** [match.group(n)]. *)
Fixpoint group (n : nat) (gs : list (nat * pystr)) : pystr :=
  match gs with
  | [] => []
  | (k, s) :: gs' => if Nat.eqb k n then s else group n gs'
  end.

(** [pattern.finditer]: the leftmost match from the current position, then
    on from where it ended.  A match that consumed nothing moves the scan one
    character on; [TICKER_REGEX] has no such match. *)
Fixpoint finditer_from (fuel : nat) (r : regex) (st : mstate) : list mstate :=
  match fuel with
  | O => []
  | S fuel' =>
      match run r (MState (before st) (after st) []) with
      | m :: _ =>
          if length (after m) <? length (after st)
          then m :: finditer_from fuel' r m
          else m :: match after m with
                    | c :: rest =>
                        finditer_from fuel' r (MState (c :: before m) rest [])
                    | [] => []
                    end
      | [] =>
          match after st with
          | c :: rest => finditer_from fuel' r (MState (c :: before st) rest [])
          | [] => []
          end
      end
  end.

Definition finditer (r : regex) (s : pystr) : list mstate :=
  finditer_from (S (length s)) r (MState [] s []).

(** ** The extractor *)

Definition STOPWORDS : list pystr :=
  map lit
    [ "THE"; "AND"; "FOR"; "WITH"; "THIS"; "THAT"; "FROM"; "YOUR"; "ABOUT";
      "WHAT"; "WHEN"; "WHERE"; "HOW"; "WILL"; "HAVE"; "JUST"; "LIKE"; "COIN";
      "TOKEN"; "GROUP"; "CHANNEL" ]%string.

(** [(?:\$|#)?\b([A-Z]{2,6})\b] *)
Definition TICKER_REGEX : regex :=
  Cat (Opt (Alt (Chr 36%N) (Chr 35%N)))
    (Cat WordBoundary
       (Cat (Group 1 (Repeat 2 6 (CharSet is_ascii_upper)))
          WordBoundary)).

Definition in_stopwords (ticker : pystr) : bool :=
  existsb (pystr_eqb ticker) STOPWORDS.

Definition extract_tickers (text : pystr) : list pystr :=
  match text with
  | [] => []
  | _ =>
      let candidates :=
        map (fun m => group 1 (groups m))
          (finditer TICKER_REGEX (upper text)) in
      filter (fun ticker => negb (in_stopwords ticker)) candidates
  end.

End Extraction.

(** ** Dates

    A [datetime] as the interpreter holds it: calendar fields and, for an aware
    value, the offset from UTC in microseconds. *)

Record datetime : Type := {
  year : N; month : N; day : N;
  hour : N; minute : N; second : N; microsecond : N;
  utcoffset : option Z
}.

(** The offset suffix of [isoformat]: sign, hours and minutes, then seconds
    and microseconds when they are not zero. *)
Definition format_offset (off : option Z) : pystr :=
  match off with
  | None => []
  | Some o =>
      let a := Z.to_N (Z.abs o) in
      let hh := (a / 3600000000)%N in
      let mm := ((a mod 3600000000) / 60000000)%N in
      let ss := ((a mod 60000000) / 1000000)%N in
      let us := (a mod 1000000)%N in
      lit (if (o <? 0)%Z then "-" else "+") ++ zfill 2 hh ++ lit ":"
      ++ zfill 2 mm
      ++ (if (a mod 60000000 =? 0)%N then []
          else lit ":" ++ zfill 2 ss
               ++ (if (us =? 0)%N then [] else lit "." ++ zfill 6 us))
  end.

(** [datetime.isoformat()] *)
Definition isoformat (d : datetime) : pystr :=
  zfill 4 (year d) ++ lit "-" ++ zfill 2 (month d) ++ lit "-" ++ zfill 2 (day d)
  ++ lit "T" ++ zfill 2 (hour d) ++ lit ":" ++ zfill 2 (minute d)
  ++ lit ":" ++ zfill 2 (second d)
  ++ (if (microsecond d =? 0)%N then [] else lit "." ++ zfill 6 (microsecond d))
  ++ format_offset (utcoffset d).

(** [datetime.strftime('%Y-%m-%d %H:%M')], the year as the C library prints
    it. *)
Definition strftime_minutes (d : datetime) : pystr :=
  decimal (year d) ++ lit "-" ++ zfill 2 (month d) ++ lit "-" ++ zfill 2 (day d)
  ++ lit " " ++ zfill 2 (hour d) ++ lit ":" ++ zfill 2 (minute d).

(** ** Messages and the messages table *)

(** What [store_message] reads of an incoming message: [message.message],
    [message.chat_id], the chat's title if it has one, [message.id],
    [message.sender_id], [message.date]. *)
Record Message : Type := {
  msg_message : option pystr;
  msg_chat_id : Z;
  msg_chat_title : option pystr;
  msg_id : Z;
  msg_sender_id : option Z;
  msg_date : datetime
}.

(** A row of [messages], without the surrogate [id], which nothing reads.
    The table is the list of its rows in insertion order. *)
Record row : Type := {
  chat_id : Z;
  chat_title : option pystr;
  message_id : Z;
  sender_id : option Z;
  message_date : pystr;
  text : option pystr
}.

Definition table := list row.

(** [init_db]: creates the table and its unique index unless they exist. *)
Definition init_db (file : option table) : table :=
  match file with
  | None => []
  | Some t => t
  end.

(** Python truth of an optional string: [None] and [""] are false. *)
Definition falsy (s : option pystr) : bool :=
  match s with
  | None | Some [] => true
  | Some (_ :: _) => false
  end.

(** [text or ""] *)
Definition or_empty (s : option pystr) : pystr :=
  match s with
  | Some t => t
  | None => []
  end.

(** The index [messages_unique] on (chat_id, message_id). *)
Definition same_key (a b : row) : bool :=
  (chat_id a =? chat_id b)%Z && (message_id a =? message_id b)%Z.

(** [INSERT OR IGNORE]: a row whose key is in the index is skipped. *)
Definition insert_or_ignore (r : row) (t : table) : table :=
  if existsb (same_key r) t then t else t ++ [r].

(** Comparison of TEXT values (BINARY collation): code point by code point,
    a proper prefix first. *)
Fixpoint text_leb (a b : pystr) : bool :=
  match a, b with
  | [], _ => true
  | _ :: _, [] => false
  | x :: a', y :: b' =>
      if (x <? y)%N then true
      else if (x =? y)%N then text_leb a' b'
      else false
  end.

(** [ORDER BY message_date ASC]: rows with equal dates stay in table order. *)
Fixpoint insert_by_date (r : row) (l : list row) : list row :=
  match l with
  | [] => [r]
  | r' :: l' =>
      if text_leb (message_date r) (message_date r') then r :: l
      else r' :: insert_by_date r l'
  end.

Definition order_by_date (l : list row) : list row :=
  fold_right insert_by_date [] l.

Definition result_row : Type := option pystr * pystr * option pystr.

(** [SELECT chat_title, message_date, text FROM messages
     WHERE message_date >= ? ORDER BY message_date ASC] *)
Definition select_since (since : pystr) (t : table) : list result_row :=
  map (fun r => (chat_title r, message_date r, text r))
    (order_by_date (filter (fun r => text_leb since (message_date r)) t)).

(** ** Calls into sqlite3

    Each call of the library may raise.  Which ones do is a condition of the
    environment, [fails]; the database is the committed table together with
    the changes of the open transaction, if there is one. *)

Inductive db_op : Type := op_connect | op_execute | op_fetchall | op_commit.

Inductive exn : Type := sqlite3_Error (op : db_op).

Inductive outcome (A : Type) : Type :=
| Returned (a : A)
| Raised (e : exn).
Arguments Returned {A} a.
Arguments Raised {A} e.

Record database : Type := {
  committed : table;
  pending : option table
}.

Definition at_rest (t : table) : database :=
  {| committed := t; pending := None |}.

Definition DB (A : Type) : Type :=
  (db_op -> bool) -> database -> outcome A * database.

Definition ret {A : Type} (a : A) : DB A := fun _ db => (Returned a, db).

Definition bind {A B : Type} (m : DB A) (k : A -> DB B) : DB B :=
  fun fails db =>
    match m fails db with
    | (Returned a, db') => k a fails db'
    | (Raised e, db') => (Raised e, db')
    end.

Notation "x <- m ;; k" := (bind m (fun x => k))
  (at level 61, m at next level, right associativity).
Notation "m ;;; k" := (bind m (fun _ => k))
  (at level 61, right associativity).

Definition call (op : db_op) : DB unit :=
  fun fails db =>
    if fails op then (Raised (sqlite3_Error op), db) else (Returned tt, db).

Definition visible (db : database) : table :=
  match pending db with
  | Some t => t
  | None => committed db
  end.

(** [with closing(sqlite3.connect(DB_PATH)) as conn: body]: the connection is
    closed however [body] ends, which drops what was not committed. *)
Definition with_connection {A : Type} (body : DB A) : DB A :=
  call op_connect ;;;
  (fun fails db =>
     let (r, db') := body fails db in (r, at_rest (committed db'))).

Definition execute_insert_or_ignore (r : row) : DB unit :=
  call op_execute ;;;
  (fun _ db =>
     (Returned tt,
      {| committed := committed db;
         pending := Some (insert_or_ignore r (visible db)) |})).

Definition commit : DB unit :=
  call op_commit ;;;
  (fun _ db => (Returned tt, at_rest (visible db))).

Definition execute_select_since (since : pystr) : DB (list result_row) :=
  call op_execute ;;;
  (fun _ db => (Returned (select_since since (visible db)), db)).

Definition fetchall {A : Type} (cursor : list A) : DB (list A) :=
  call op_fetchall ;;; ret cursor.

Definition row_of_message (message : Message) : row :=
  {| chat_id := msg_chat_id message;
     chat_title := msg_chat_title message;
     message_id := msg_id message;
     sender_id := msg_sender_id message;
     message_date := isoformat (msg_date message);
     text := msg_message message |}.

Definition store_message (message : Message) : DB unit :=
  if falsy (msg_message message) then ret tt
  else
    with_connection
      (execute_insert_or_ignore (row_of_message message) ;;;
       commit).

Definition load_messages_since (since : datetime) : DB (list result_row) :=
  with_connection
    (cursor <- execute_select_since (isoformat since) ;;
     fetchall cursor).

(** ** Dictionaries

    A [dict] keeps its keys in the order they were first set, which
    [Counter.most_common] depends on. *)

Section Dict.
Variable V : Type.

Definition dict : Type := list (pystr * V).

Fixpoint dict_get (k : pystr) (d : dict) : option V :=
  match d with
  | [] => None
  | (k', v) :: d' => if pystr_eqb k' k then Some v else dict_get k d'
  end.

Fixpoint dict_set (k : pystr) (v : V) (d : dict) : dict :=
  match d with
  | [] => [(k, v)]
  | (k', v') :: d' =>
      if pystr_eqb k' k then (k', v) :: d' else (k', v') :: dict_set k v d'
  end.

End Dict.
Arguments dict_get {V} k d.
Arguments dict_set {V} k v d.

(** [Counter]: a missing key counts as 0. *)
Definition counter_get (k : pystr) (c : dict nat) : nat :=
  match dict_get k c with
  | Some n => n
  | None => 0
  end.

(** [defaultdict(list)]: reading a missing key stores an empty list for it. *)
Definition defaultdict_get (k : pystr) (d : dict (list pystr))
    : list pystr * dict (list pystr) :=
  match dict_get k d with
  | Some v => (v, d)
  | None => ([], dict_set k [] d)
  end.

(** [sorted(items, key=itemgetter(1), reverse=True)]: by count, larger first,
    items of equal count in the order they had. *)
Fixpoint insert_by_count (x : pystr * nat) (l : list (pystr * nat))
    : list (pystr * nat) :=
  match l with
  | [] => [x]
  | y :: l' =>
      if snd y <=? snd x then x :: l else y :: insert_by_count x l'
  end.

Definition sort_by_count (l : list (pystr * nat)) : list (pystr * nat) :=
  fold_right insert_by_count [] l.

(** [Counter.most_common(n)] *)
Definition most_common (n : nat) (c : dict nat) : list (pystr * nat) :=
  firstn n (sort_by_count c).

(** ** The digest *)

Definition header : pystr := lit "Daily Telegram Ticker Digest".

Definition no_mentions : pystr :=
  header ++ [newline; newline]
  ++ lit "No ticker mentions found in the last 24 hours.".

Definition em_dash : char := 8212%N.
Definition bullet : char := 8226%N.

Definition window_line (since now : datetime) : pystr :=
  lit "Window: " ++ strftime_minutes since ++ lit " - " ++ strftime_minutes now.

Definition ticker_line (ticker : pystr) (count : nat) : pystr :=
  lit "$" ++ ticker ++ lit " " ++ [em_dash] ++ lit " "
  ++ decimal (N.of_nat count) ++ lit " mentions".

Definition sample_line (sample : pystr) : pystr :=
  lit "  " ++ [bullet] ++ lit " " ++ sample.

Section Digest.
Context {U : UnicodeData}.

Definition tally : Type := dict nat * dict (list pystr).

(** The body of the inner loop, for one ticker of one row. *)
Definition note_ticker (text : option pystr) (acc : tally) (ticker : pystr)
    : tally :=
  let '(ticker_counts, ticker_samples) := acc in
  let ticker_counts :=
    dict_set ticker (counter_get ticker ticker_counts + 1) ticker_counts in
  let '(samples, ticker_samples) := defaultdict_get ticker ticker_samples in
  if length samples <? 3 then
    let preview := replace_newlines (strip (or_empty text)) in
    match preview with
    | [] => (ticker_counts, ticker_samples)
    | _ :: _ =>
        (ticker_counts,
         dict_set ticker (samples ++ [firstn 160 preview]) ticker_samples)
    end
  else (ticker_counts, ticker_samples).

Definition note_row (acc : tally) (r : result_row) : tally :=
  let '(_, _, text) := r in
  fold_left (note_ticker text) (extract_tickers (or_empty text)) acc.

Definition aggregate (rows : list result_row) : tally :=
  fold_left note_row rows ([], []).

Definition ticker_block (ticker_samples : dict (list pystr))
    (item : pystr * nat) : list pystr :=
  let (ticker, count) := item in
  ticker_line ticker count
  :: map sample_line (fst (defaultdict_get ticker ticker_samples)) ++ [[]].

Definition digest_lines (since now : datetime) (t : tally) : list pystr :=
  let (ticker_counts, ticker_samples) := t in
  [header; window_line since now; []]
  ++ flat_map (ticker_block ticker_samples) (most_common 15 ticker_counts).

Definition render (since now : datetime) (rows : list result_row) : pystr :=
  let t := aggregate rows in
  match fst t with
  | [] => no_mentions
  | _ :: _ => strip (join_lines (digest_lines since now t))
  end.

(** [build_digest(since)]; [now] is what [datetime.now()] returns in it. *)
Definition build_digest (since now : datetime) : DB pystr :=
  rows <- load_messages_since since ;;
  ret (render since now rows).

End Digest.

(** ** Tokenizers

    [runs_from p inside s] lists the maximal runs of characters satisfying [p]
    in [s], left to right; [inside] says that the character before [s]
    satisfies [p], so that a run at the head of [s] started earlier and is
    not listed. *)

Fixpoint take_while (p : char -> bool) (s : pystr) : pystr :=
  match s with
  | c :: s' => if p c then c :: take_while p s' else []
  | [] => []
  end.

Fixpoint runs_from (p : char -> bool) (inside : bool) (s : pystr)
    : list pystr :=
  match s with
  | [] => []
  | c :: s' =>
      if p c then
        if inside then runs_from p true s'
        else take_while p s :: runs_from p true s'
      else runs_from p false s'
  end.

Definition maximal_runs (p : char -> bool) (s : pystr) : list pystr :=
  runs_from p false s.

Definition is_latin_letter (c : char) : bool :=
  is_ascii_upper c || is_ascii_lower c.

Definition length_2_to_6 (r : pystr) : bool :=
  (2 <=? length r) && (length r <=? 6).

Definition ticker_shaped (r : pystr) : bool :=
  forallb is_ascii_upper r && length_2_to_6 r.

Section Tokenizers.
Context {U : UnicodeData}.

(** The tokenizer in the words of the design note: runs of Latin letters. *)
Definition spec_tokenizer (text : pystr) : list pystr :=
  filter (fun t => negb (in_stopwords t))
    (filter length_2_to_6 (maximal_runs is_latin_letter (upper text))).

(** The tokenizer the pattern amounts to: runs of word characters, of which
    those made of 2 to 6 letters A-Z are kept. *)
Definition word_tokenizer (text : pystr) : list pystr :=
  filter (fun t => negb (in_stopwords t))
    (filter ticker_shaped (maximal_runs is_word (upper text))).

End Tokenizers.

Definition healthy : db_op -> bool := fun _ => false.

(** ** The invariant of the table *)

Definition key_of_row (r : row) : Z * Z := (chat_id r, message_id r).

Definition unique_keys (t : table) : Prop := NoDup (map key_of_row t).

Definition has_key (c i : Z) (r : row) : bool :=
  (chat_id r =? c)%Z && (message_id r =? i)%Z.

Definition date_of (r : result_row) : pystr := snd (fst r).

Definition project (r : row) : result_row :=
  (chat_title r, message_date r, text r).


Definition rows_by_date (a b : row) : Prop :=
  text_leb (message_date a) (message_date b) = true.

(** The ranges the interpreter keeps the fields of a [datetime] in. *)
Definition valid_datetime (d : datetime) : Prop :=
  (1 <= year d <= 9999)%N /\ (1 <= month d <= 12)%N /\ (1 <= day d <= 31)%N
  /\ (hour d <= 23)%N /\ (minute d <= 59)%N /\ (second d <= 59)%N
  /\ (microsecond d <= 999999)%N.

(** What [isoformat] writes after the seconds. *)
Definition iso_tail (d : datetime) : pystr :=
  (if (microsecond d =? 0)%N then [] else 46%N :: digits 6 (microsecond d))
  ++ format_offset (utcoffset d).

Definition lex (a b : N) (rest : bool) : bool :=
  if (a =? b)%N then rest else (a <? b)%N.

(** Comparison of the calendar fields, the most significant first. *)
Definition datetime_leb (a b : datetime) : bool :=
  lex (year a) (year b)
    (lex (month a) (month b)
       (lex (day a) (day b)
          (lex (hour a) (hour b)
             (lex (minute a) (minute b)
                (lex (second a) (second b)
                   (microsecond a <=? microsecond b)%N))))).

(** The messages of a run of the handler, each with the sqlite3 calls that
    fail while it is stored, applied in turn. *)
Fixpoint store_each (events : list (Message * (db_op -> bool)))
    (db : database) : database :=
  match events with
  | [] => db
  | (m, fails) :: rest => store_each rest (snd (store_message m fails db))
  end.

(** ** Sample data *)

Definition utc (y mo d h mi s : N) : datetime :=
  {| year := y; month := mo; day := d; hour := h; minute := mi; second := s;
     microsecond := 0; utcoffset := Some 0%Z |}.

Definition naive (y mo d h mi s us : N) : datetime :=
  {| year := y; month := mo; day := d; hour := h; minute := mi; second := s;
     microsecond := us; utcoffset := None |}.

Definition plain_message (c i : Z) (d : datetime) (t : option pystr)
    : Message :=
  {| msg_message := t; msg_chat_id := c; msg_chat_title := None;
     msg_id := i; msg_sender_id := None; msg_date := d |}.

(** ** The loop of [build_digest], mention by mention *)

(** The cleaned text a sample is cut from. *)
Definition preview_of (text : option pystr) : pystr :=
  replace_newlines (strip (or_empty text)).

Definition samples_of (ticker : pystr) (d : dict (list pystr)) : list pystr :=
  fst (defaultdict_get ticker d).

Definition nonempty (s : pystr) : bool :=
  match s with
  | [] => false
  | _ :: _ => true
  end.

(** A mention is a ticker together with the preview of the row it is in. *)
Definition mention : Type := pystr * pystr.

(** The inner loop's body as a function of the mention. *)
Definition record_mention (acc : dict nat * dict (list pystr)) (ev : mention)
    : dict nat * dict (list pystr) :=
  let '(ticker, preview) := ev in
  let '(ticker_counts, ticker_samples) := acc in
  let ticker_counts :=
    dict_set ticker (counter_get ticker ticker_counts + 1) ticker_counts in
  let '(samples, ticker_samples) := defaultdict_get ticker ticker_samples in
  if length samples <? 3 then
    match preview with
    | [] => (ticker_counts, ticker_samples)
    | _ :: _ =>
        (ticker_counts,
         dict_set ticker (samples ++ [firstn 160 preview]) ticker_samples)
    end
  else (ticker_counts, ticker_samples).

Definition mentions_of (ticker : pystr) (evs : list mention) : list mention :=
  filter (fun ev => pystr_eqb (fst ev) ticker) evs.

(** The samples a list of mentions offers for a ticker: the previews of its
    mentions in order, the empty ones left out, each cut to 160. *)
Definition new_samples (ticker : pystr) (evs : list mention) : list pystr :=
  map (firstn 160) (filter nonempty (map snd (mentions_of ticker evs))).

Definition seen_before (x : pystr) (seen : list pystr) : bool :=
  existsb (pystr_eqb x) seen.

(** The elements of [l] not in [seen], each at its first occurrence. *)
Fixpoint first_occurrences (seen l : list pystr) : list pystr :=
  match l with
  | [] => []
  | x :: l' =>
      if seen_before x seen then first_occurrences seen l'
      else x :: first_occurrences (x :: seen) l'
  end.

Definition has_count (n : nat) (item : pystr * nat) : bool := snd item =? n.

(** What ["\n".join] writes after a line that is followed by [rest]. *)
Definition after_line (rest : list pystr) : pystr :=
  match rest with
  | [] => []
  | _ :: _ => newline :: join_lines rest
  end.

Definition by_count (a b : pystr * nat) : Prop := snd b <= snd a.

Section Mentions.
Context {U : UnicodeData}.

(** The mentions of the rows, in the order the loops visit them. *)
Definition mentions (rows : list result_row) : list mention :=
  flat_map
    (fun r => map (fun ticker => (ticker, preview_of (snd r)))
                (extract_tickers (or_empty (snd r))))
    rows.

Definition previews_for (ticker : pystr) (rows : list result_row)
    : list pystr :=
  new_samples ticker (mentions rows).

End Mentions.

(** ** Auxiliary definitions for the matcher's analysis *)

(** The position [k] characters further on. *)
Definition moved (k : nat) (st : mstate) : mstate :=
  MState (rev (firstn k (after st)) ++ before st) (skipn k (after st))
    (groups st).

(** The pattern after its optional marker. *)
Definition ticker_tail : regex :=
  Cat WordBoundary
    (Cat (Group 1 (Repeat 2 6 (CharSet is_ascii_upper))) WordBoundary).

(** Where that part ends when it matches: after the letters at the position,
    with the letters as group 1. *)
Definition ticker_end (b s : pystr) (g : list (nat * pystr)) : mstate :=
  let l := take_while is_ascii_upper s in
  MState (rev l ++ b) (skipn (length l) s) ((1, l) :: g).

Definition is_marker (c : char) : bool := (36 =? c)%N || (35 =? c)%N.

Definition tickers_found (ms : list mstate) : list pystr :=
  map (fun m => group 1 (groups m)) ms.

Section MatcherAnalysis.
Context {U : UnicodeData}.

(** 2 to 6 letters A-Z at the position, and no word character after them. *)
Definition shape_here (s : pystr) : bool :=
  let n := length (take_while is_ascii_upper s) in
  (2 <=? n) && (n <=? 6) && negb (word_at (hd_error (skipn n s))).

Definition tail_matches (b s : pystr) : bool :=
  xorb (word_at (hd_error b)) (word_at (hd_error s)) && shape_here s.

End MatcherAnalysis.

(** ** Start-up: the environment, the configuration and the mode

    The environment is what [os.getenv] reads.  [load_dotenv()] adds to it
    the variables of the [.env] file; one that is set already keeps its
    value. *)

Definition environ : Type := pystr -> option pystr.

Definition load_dotenv (dotenv env : environ) : environ :=
  fun key =>
    match env key with
    | Some v => Some v
    | None => dotenv key
    end.

(** [os.getenv(key, default)]: the default stands for a variable that is not
    set, not for one that is set to the empty string. *)
Definition getenv (env : environ) (key default : pystr) : pystr :=
  match env key with
  | Some v => v
  | None => default
  end.

Inductive error : Type :=
| RuntimeError (message : pystr)
| ValueError
| OverflowError
| DatabaseError (e : exn)
| SendError.

(** The part of the libraries the start-up depends on beyond what is written
    out below: [int] of a text that is not a plain numeral (signs, white
    space, underscores, other digits; [None] when it raises [ValueError]),
    [str.lower] of a text with a code point above 127, and what the
    constructor of [TelegramClient] raises, if anything, once it has accepted
    the credentials (the session file, the event loop). *)
Class Builtins := {
  int_other : pystr -> option Z;
  lower_other : pystr -> pystr;
  client_other : pystr -> Z -> pystr -> option error
}.

(** Builtins that reject every text that is not a plain numeral, leave a
    text with a code point above 127 as it is and make every client whose
    credentials are accepted.  They agree with the interpreter's on plain
    numerals and on caseless texts. *)
Definition plain_builtins : Builtins :=
  {| int_other := fun _ => None;
     lower_other := fun s => s;
     client_other := fun _ _ _ => None |}.

Fixpoint numeral_value (acc : Z) (s : pystr) : Z :=
  match s with
  | [] => acc
  | c :: s' => numeral_value (10 * acc + Z.of_N (c - 48)) s'
  end.

(** One to 640 digits 0-9: no limit on the length of numerals that the
    interpreter can be given is below 640. *)
Definition plain_numeral (s : pystr) : bool :=
  nonempty s && forallb is_ascii_digit s && (length s <=? 640).

Definition is_ascii (c : char) : bool := (c <? 128)%N.

Definition lower_char (c : char) : char :=
  if is_ascii_upper c then (c + 32)%N else c.

Record Config : Type := {
  api_id : Z;
  api_hash : pystr;
  session : pystr;
  target_chat : pystr;
  digest_hour : Z;
  digest_minute : Z
}.

Definition missing_credentials : pystr :=
  lit "Missing TELEGRAM_API_ID or TELEGRAM_API_HASH".

Definition usage : pystr :=
  lit "Usage: python app.py [ingest|digest|schedule]".

(** What [main] goes on to await, with its arguments. *)
Inductive command : Type :=
| Ingest
| Digest (target : pystr)
| Schedule (target : pystr) (hour minute : Z).

Section Startup.
Context {B : Builtins}.

(** [int(s)]: the empty text is no numeral. *)
Definition int (s : pystr) : option Z :=
  match s with
  | [] => None
  | _ :: _ =>
      if plain_numeral s then Some (numeral_value 0 s) else int_other s
  end.

(** [str.lower()] *)
Definition lower (s : pystr) : pystr :=
  if forallb is_ascii s then map lower_char s else lower_other s.

(** [load_config()], given the [.env] file and the environment of the
    process.  The two [int] calls on the hour and the minute run before the
    credentials are looked at. *)
Definition load_config (dotenv env : environ) : Config + error :=
  let env := load_dotenv dotenv env in
  let id := env (lit "TELEGRAM_API_ID") in
  let hash := env (lit "TELEGRAM_API_HASH") in
  let session := getenv env (lit "TELEGRAM_SESSION") (lit "ticker_session") in
  let target_chat := getenv env (lit "TARGET_CHAT") (lit "me") in
  match int (getenv env (lit "DIGEST_HOUR") (lit "9")) with
  | None => inr ValueError
  | Some digest_hour =>
      match int (getenv env (lit "DIGEST_MINUTE") (lit "0")) with
      | None => inr ValueError
      | Some digest_minute =>
          if falsy id || falsy hash then
            inr (RuntimeError missing_credentials)
          else
            match int (or_empty id) with
            | None => inr ValueError
            | Some id =>
                inl {| api_id := id;
                       api_hash := or_empty hash;
                       session := session;
                       target_chat := target_chat;
                       digest_hour := digest_hour;
                       digest_minute := digest_minute |}
            end
      end
  end.

(** The mode [main] settles on: [MODE], which [load_dotenv] may have set,
    unless the command line has an argument. *)
Definition mode_word (env : environ) (argv : list pystr) : pystr :=
  match argv with
  | _ :: arg :: _ => lower (strip arg)
  | _ => lower (strip (or_empty (env (lit "MODE"))))
  end.

Definition dispatch (config : Config) (mode : pystr) : option command :=
  if pystr_eqb mode (lit "ingest") then Some Ingest
  else if pystr_eqb mode (lit "digest") then
    Some (Digest (target_chat config))
  else if pystr_eqb mode (lit "schedule") then
    Some (Schedule (target_chat config) (digest_hour config)
            (digest_minute config))
  else None.

(** [TelegramClient(session, api_id, api_hash)]: what the constructor
    raises, [None] when it returns the client.  It refuses an identifier or
    a hash that is zero or empty before anything else. *)
Definition TelegramClient (session : pystr) (api_id : Z) (api_hash : pystr)
    : option error :=
  if (api_id =? 0)%Z || negb (nonempty api_hash) then Some ValueError
  else client_other session api_id api_hash.

(** [main()] up to the command it awaits: the configuration, the client
    made from it, then the mode. *)
Definition main (dotenv env : environ) (argv : list pystr)
    : (Config * command) + error :=
  match load_config dotenv env with
  | inr e => inr e
  | inl config =>
      match TelegramClient (session config) (api_id config)
              (api_hash config) with
      | Some e => inr e
      | None =>
          match dispatch config (mode_word (load_dotenv dotenv env) argv) with
          | None => inr (RuntimeError usage)
          | Some c => inl (config, c)
          end
      end
  end.

End Startup.

(** ** The commands *)

(** The calls [init_db] makes on a database that has its table, the data
    directory being there: both statements find what they would create, and
    the commit has nothing to write. *)
Definition create_if_not_exists : DB unit :=
  with_connection (call op_execute ;;; call op_execute ;;; commit).

(** [run_ingest]: the handler stores each new message; what it raises is
    logged by the client, which goes on with the next message. *)
Definition run_ingest (fails : db_op -> bool)
    (events : list (Message * (db_op -> bool))) (db : database)
    : outcome unit * database :=
  match create_if_not_exists fails db with
  | (Raised e, db') => (Raised e, db')
  | (Returned _, db') => (Returned tt, store_each events db')
  end.

(** The calendar, as [datetime] has it. *)
Definition is_leap (y : N) : bool :=
  ((y mod 4 =? 0) && (negb (y mod 100 =? 0) || (y mod 400 =? 0)))%N.

Definition days_in_month (y m : N) : N :=
  if (m =? 2)%N then (if is_leap y then 29 else 28)%N
  else if ((m =? 4) || (m =? 6) || (m =? 9) || (m =? 11))%N then 30%N
  else 31%N.

Definition days_before_year (y : N) : N :=
  let p := (y - 1)%N in (p * 365 + p / 4 - p / 100 + p / 400)%N.

Definition days_before_month (y m : N) : N :=
  (nth (N.to_nat m) [0; 0; 31; 59; 90; 120; 151; 181; 212; 243; 273; 304; 334]
     0
   + (if (2 <? m) && is_leap y then 1 else 0))%N.

(** [date.toordinal()]: 1 for 1 January of year 1. *)
Definition toordinal (d : datetime) : N :=
  (days_before_year (year d) + days_before_month (year d) (month d) + day d)%N.

(** The calendar reading of a value, in microseconds from the start of the
    day of ordinal 0, whatever its offset. *)
Definition wall_clock (d : datetime) : Z :=
  Z.of_N ((((toordinal d * 24 + hour d) * 60 + minute d) * 60 + second d)
          * 1000000 + microsecond d).

(** The instant of an aware value, which is what [datetime] compares aware
    values by: its reading less its offset.  A naive value has none of its
    own; it is given its reading. *)
Definition instant (d : datetime) : Z :=
  (wall_clock d - match utcoffset d with Some o => o | None => 0 end)%Z.

Definition with_date (d : datetime) (y m dd : N) : datetime :=
  {| year := y; month := m; day := dd;
     hour := hour d; minute := minute d; second := second d;
     microsecond := microsecond d; utcoffset := utcoffset d |}.

(** [d - timedelta(days=1)]: the day before at the same time, [None] for the
    [OverflowError] of the first day of year 1. *)
Definition minus_one_day (d : datetime) : option datetime :=
  if (1 <? day d)%N then Some (with_date d (year d) (month d) (day d - 1))
  else if (1 <? month d)%N then
    Some (with_date d (year d) (month d - 1)
            (days_in_month (year d) (month d - 1)))
  else if (1 <? year d)%N then Some (with_date d (year d - 1) 12 31)
  else None.

(** The calls of [send_message] made so far, oldest first: the chat and the
    text of each. *)
Definition outbox : Type := list (pystr * pystr).

Section Commands.
Context {U : UnicodeData}.

(** [run_digest(client, target_chat)]: [now] and [now'] are what the clock
    gives here and then in [build_digest]; [fails] and [fails'] say which
    sqlite3 calls fail in [init_db] and in [build_digest]; [send_fails]
    says whether the call of [send_message] raises. *)
Definition run_digest (target_chat : pystr) (now now' : datetime)
    (fails fails' : db_op -> bool) (send_fails : bool)
    (db : database) (sent : outbox)
    : (unit + error) * database * outbox :=
  match create_if_not_exists fails db with
  | (Raised e, db1) => (inr (DatabaseError e), db1, sent)
  | (Returned _, db1) =>
      match minus_one_day now with
      | None => (inr OverflowError, db1, sent)
      | Some since =>
          match build_digest since now' fails' db1 with
          | (Raised e, db2) => (inr (DatabaseError e), db2, sent)
          | (Returned digest, db2) =>
              (if send_fails then inr SendError else inl tt,
               db2, sent ++ [(target_chat, digest)])
          end
      end
  end.

End Commands.

(** An environment given by its settings. *)
Definition env_of (settings : list (string * string)) : environ :=
  fun key =>
    dict_get key (map (fun kv => (lit (fst kv), lit (snd kv))) settings).

(** Every delivery of [ms] with no sqlite3 call failing. *)
Definition delivered (ms : list Message) : list (Message * (db_op -> bool)) :=
  map (fun m => (m, healthy)) ms.

Definition valid_date (d : datetime) : Prop :=
  (day d <= days_in_month (year d) (month d))%N.

(** [sum(counter.values())] *)
Definition total_count (c : dict nat) : nat := list_sum (map snd c).

Section Counting.
Context {U : UnicodeData}.

(** The number of mentions a row adds. *)
Definition tickers_in (r : result_row) : nat :=
  length (extract_tickers (or_empty (snd r))).

End Counting.

(** * Properties *)

Ltac compare_N :=
  repeat match goal with
         | |- context [(?a <? ?b)%N] => destruct (N.ltb_spec a b)
         | |- context [(?a =? ?b)%N] => destruct (N.eqb_spec a b)
         | |- context [(?a <=? ?b)%N] => destruct (N.leb_spec a b)
         end;
  try reflexivity; try lia; try (exfalso; subst; congruence).

(** ** Text *)

Lemma pystr_eqb_eq (a b : pystr) : pystr_eqb a b = true <-> a = b.
Proof.
  revert b; induction a as [|x a IH]; intros [|y b]; simpl; split; intro H;
    try discriminate; try reflexivity.
  - apply andb_true_iff in H as [Hx Hab]. apply N.eqb_eq in Hx.
    apply IH in Hab. now subst.
  - injection H as -> ->. rewrite N.eqb_refl. now apply IH.
Qed.

Lemma pystr_eqb_refl (a : pystr) : pystr_eqb a a = true.
Proof. now apply pystr_eqb_eq. Qed.

Lemma in_range_iff (lo hi c : N) :
  in_range lo hi c = true <-> (lo <= c <= hi)%N.
Proof.
  unfold in_range. rewrite andb_true_iff, !N.leb_le. tauto.
Qed.

Lemma take_while_all (p : char -> bool) (s : pystr) :
  forallb p (take_while p s) = true.
Proof.
  induction s as [|c s IH]; simpl; [reflexivity|].
  destruct (p c) eqn:E; simpl; [now rewrite E|reflexivity].
Qed.

Lemma take_while_firstn (p : char -> bool) (s : pystr) :
  firstn (length (take_while p s)) s = take_while p s.
Proof.
  induction s as [|c s IH]; simpl; [reflexivity|].
  destruct (p c); simpl; [now rewrite IH|reflexivity].
Qed.

Lemma take_while_length (p : char -> bool) (s : pystr) :
  length (take_while p s) <= length s.
Proof.
  induction s as [|c s IH]; simpl; [lia|]. destruct (p c); simpl; lia.
Qed.

(** The character after the run does not satisfy [p]. *)
Lemma take_while_stops (p : char -> bool) (s : pystr) (c : char) :
  hd_error (skipn (length (take_while p s)) s) = Some c -> p c = false.
Proof.
  induction s as [|x s IH]; simpl; [discriminate|].
  destruct (p x) eqn:E; simpl; [exact IH|]. now intros [= <-].
Qed.

(** A prefix of characters satisfying [p] lies within the run. *)
Lemma prefix_in_take_while (p : char -> bool) (s : pystr) (k : nat) :
  k <= length s -> forallb p (firstn k s) = true ->
  k <= length (take_while p s).
Proof.
  revert k; induction s as [|x s IH]; intros [|k]; simpl; try lia.
  intros Hk H. apply andb_true_iff in H as [Hx H]. rewrite Hx. simpl.
  apply le_n_S, IH; [lia|exact H].
Qed.

(** Inside the run, the next character satisfies [p]. *)
Lemma inside_take_while (p : char -> bool) (s : pystr) (k : nat) :
  k < length (take_while p s) ->
  exists c, hd_error (skipn k s) = Some c /\ p c = true.
Proof.
  revert k; induction s as [|x s IH]; intros k; simpl; [lia|].
  destruct (p x) eqn:E; simpl; [|lia].
  destruct k as [|k]; simpl; [now exists x|]. intros H. apply IH. lia.
Qed.

Lemma runs_from_skip (p : char -> bool) (l rest : pystr) :
  forallb p l = true -> runs_from p true (l ++ rest) = runs_from p true rest.
Proof.
  induction l as [|c l IH]; simpl; [reflexivity|].
  intros H. apply andb_true_iff in H as [Hc H]. rewrite Hc. now apply IH.
Qed.

Lemma hd_rev_app (l b : pystr) :
  l <> [] -> exists c, hd_error (rev l ++ b) = Some c /\ In c l.
Proof.
  intros H. destruct (rev l) as [|c r] eqn:E.
  - apply (f_equal (@rev char)) in E. rewrite rev_involutive in E. now subst.
  - exists c. split; [reflexivity|].
    apply in_rev. rewrite E. now left.
Qed.

(** ** The matcher on [TICKER_REGEX] *)

Section Matching.
Context {U : UnicodeData}.

Lemma upper_is_word (c : char) : is_ascii_upper c = true -> is_word c = true.
Proof.
  intros H. unfold is_word, isalnum. rewrite H.
  apply in_range_iff in H.
  assert (E : (c <? 128)%N = true) by (apply N.ltb_lt; lia).
  now rewrite E.
Qed.

Lemma marker_not_word (c : char) :
  (36 =? c)%N = true \/ (35 =? c)%N = true -> is_word c = false.
Proof.
  intros [H|H]; apply N.eqb_eq in H; subst; reflexivity.
Qed.

Lemma In_repeat_greedy (p : char -> bool) (hi lo : nat) (st st' : mstate) :
  In st' (repeat_greedy (eat p) lo hi st) <->
  exists k, lo <= k <= hi /\ k <= length (after st)
            /\ forallb p (firstn k (after st)) = true /\ st' = moved k st.
Proof.
  revert lo st; induction hi as [|hi IH]; intros lo [b s g]; simpl.
  - split.
    + destruct lo; simpl; [|tauto]. intros [<-|[]].
      exists 0. repeat split; simpl; lia.
    + intros (k & Hk & _ & _ & ->). assert (k = 0) by lia; subst.
      assert (lo = 0) by lia; subst. now left.
  - rewrite in_app_iff, in_flat_map. split.
    + intros [(st1 & H1 & H2)|H].
      * unfold eat in H1; simpl in H1. destruct s as [|c s]; [destruct H1|].
        destruct (p c) eqn:Ec; [|destruct H1]. destruct H1 as [<-|[]].
        apply IH in H2 as (k & Hk & Hlen & Hall & ->). simpl in *.
        exists (S k). simpl. rewrite Ec, Hall. repeat split; try lia.
        unfold moved; simpl. now rewrite <- app_assoc.
      * destruct lo; [|destruct H]. destruct H as [<-|[]].
        exists 0. repeat split; simpl; lia.
    + intros (k & Hk & Hlen & Hall & ->). destruct k as [|k].
      * right. assert (lo = 0) by lia; subst. now left.
      * left. simpl in Hlen. destruct s as [|c s]; simpl in Hlen; [lia|].
        simpl in Hall. apply andb_true_iff in Hall as [Ec Hall].
        exists (MState (c :: b) s g). split.
        { unfold eat; simpl. rewrite Ec. now left. }
        apply IH. exists k. simpl. repeat split; try lia; [exact Hall|].
        unfold moved; simpl. now rewrite <- app_assoc.
Qed.

Lemma take_while_sub (p q : char -> bool) (s : pystr) :
  (forall c, p c = true -> q c = true) ->
  (forall c, hd_error (skipn (length (take_while p s)) s) = Some c ->
             q c = false) ->
  take_while q s = take_while p s.
Proof.
  intros Hpq. induction s as [|x s IH]; simpl; [reflexivity|].
  destruct (p x) eqn:Ex; simpl.
  - rewrite (Hpq _ Ex). intros H. now rewrite IH.
  - intros H. now rewrite (H x eq_refl).
Qed.

Lemma take_while_within (p q : char -> bool) (s : pystr) :
  (forall c, p c = true -> q c = true) ->
  forallb p (take_while q s) = true ->
  take_while p s = take_while q s.
Proof.
  intros Hpq. induction s as [|x s IH]; simpl; [reflexivity|].
  destruct (q x) eqn:Ex; simpl.
  - intros H. apply andb_true_iff in H as [Hx H]. rewrite Hx.
    now rewrite IH.
  - intros _. destruct (p x) eqn:Epx; [|reflexivity].
    apply Hpq in Epx. congruence.
Qed.

Lemma word_at_after_run (s : pystr) :
  word_at (hd_error (skipn (length (take_while is_word s)) s)) = false.
Proof.
  destruct (hd_error _) as [c|] eqn:E; [|reflexivity].
  simpl. now apply take_while_stops in E.
Qed.

(** Every way the tail matches ends at [ticker_end], and there is one exactly
    when [tail_matches] says so. *)
Lemma In_run_tail (b s : pystr) (g : list (nat * pystr)) (x : mstate) :
  In x (run ticker_tail (MState b s g)) <->
  x = ticker_end b s g /\ tail_matches b s = true.
Proof.
  unfold ticker_tail, tail_matches, shape_here.
  set (n := length (take_while is_ascii_upper s)).
  assert (Hf : firstn n s = take_while is_ascii_upper s)
    by apply take_while_firstn.
  cbn [run].
  change (at_boundary (MState b s g))
    with (xorb (word_at (hd_error b)) (word_at (hd_error s))).
  destruct (xorb (word_at (hd_error b)) (word_at (hd_error s))) eqn:Eb;
    cbn [flat_map]; [|simpl; split; [intros []|intros [_ [=]]]].
  rewrite app_nil_r, in_flat_map. rewrite andb_true_l. split.
  - intros (y & Hy & Hx). apply in_map_iff in Hy as (z & <- & Hz).
    apply In_repeat_greedy in Hz as (k & Hk & Hlen & Hall & ->).
    cbn [after] in Hlen, Hall.
    unfold set_group, consumed, moved, at_boundary in Hx.
    cbn [before after groups] in Hx.
    assert (Hkn : k <= n) by now apply prefix_in_take_while.
    destruct (hd_rev_app (firstn k s) b) as (c & Hc & Hin).
    { destruct s; [simpl in Hlen; lia|]. destruct k; [lia|discriminate]. }
    rewrite Hc in Hx. cbn [word_at] in Hx.
    rewrite forallb_forall in Hall.
    rewrite (upper_is_word c (Hall c Hin)) in Hx. cbn [xorb] in Hx.
    destruct (word_at (hd_error (skipn k s))) eqn:Ew; [destruct Hx|].
    destruct Hx as [<-|[]].
    assert (k = n).
    { destruct (Nat.eq_dec k n) as [|Hne]; [assumption|exfalso].
      destruct (inside_take_while is_ascii_upper s k) as (c' & Hc' & Hup);
        [fold n; lia|].
      rewrite Hc' in Ew. simpl in Ew.
      now rewrite (upper_is_word c' Hup) in Ew. }
    subst k. rewrite Ew. split.
    + unfold ticker_end. fold n. rewrite ?length_skipn.
      replace (length s - (length s - n)) with n by lia.
      now rewrite Hf.
    + apply andb_true_iff; split; [|reflexivity].
      apply andb_true_iff; split; apply Nat.leb_le; lia.
  - intros [-> H]. apply andb_true_iff in H as [H Hw].
    apply andb_true_iff in H as [H2 H6]. apply Nat.leb_le in H2, H6.
    apply negb_true_iff in Hw.
    exists (set_group 1 (consumed (MState b s g) (moved n (MState b s g)))
              (moved n (MState b s g))).
    split.
    + apply in_map_iff. exists (moved n (MState b s g)).
      split; [reflexivity|].
      apply In_repeat_greedy. exists n. cbn [after].
      repeat split; try lia.
      * apply take_while_length.
      * rewrite Hf. apply take_while_all.
    + unfold set_group, consumed, moved, at_boundary, ticker_end.
      cbn [before after groups]. fold n. rewrite ?length_skipn.
      pose proof (take_while_length is_ascii_upper s) as Hn. fold n in Hn.
      replace (length s - (length s - n)) with n by lia.
      rewrite !Hf.
      destruct (hd_rev_app (take_while is_ascii_upper s) b) as (c & Hc & Hin).
      { intros E. unfold n in H2. rewrite E in H2. simpl in H2. lia. }
      rewrite Hc, Hw. cbn [word_at].
      pose proof (take_while_all is_ascii_upper s) as Hall.
      rewrite forallb_forall in Hall.
      rewrite (upper_is_word c (Hall c Hin)). now left.
Qed.

Lemma run_tail_cases (b s : pystr) (g : list (nat * pystr)) :
  if tail_matches b s
  then exists tl, run ticker_tail (MState b s g) = ticker_end b s g :: tl
  else run ticker_tail (MState b s g) = [].
Proof.
  destruct (run ticker_tail (MState b s g)) as [|x tl] eqn:E.
  - destruct (tail_matches b s) eqn:Em; [|reflexivity].
    assert (H : In (ticker_end b s g) (run ticker_tail (MState b s g)))
      by now apply In_run_tail.
    rewrite E in H. destruct H.
  - assert (H : In x (run ticker_tail (MState b s g)))
      by (rewrite E; now left).
    apply In_run_tail in H as [-> ->]. now exists tl.
Qed.

Lemma shape_here_inv (s : pystr) :
  shape_here s = true ->
  2 <= length (take_while is_ascii_upper s) <= 6
  /\ word_at (hd_error (skipn (length (take_while is_ascii_upper s)) s))
     = false.
Proof.
  unfold shape_here. intros H. apply andb_true_iff in H as [H Hw].
  apply andb_true_iff in H as [H2 H6]. apply Nat.leb_le in H2, H6.
  apply negb_true_iff in Hw. auto.
Qed.

Lemma shape_here_run (s : pystr) :
  shape_here s = true ->
  take_while is_word s = take_while is_ascii_upper s.
Proof.
  intros H. apply shape_here_inv in H as [_ Hw].
  apply take_while_sub; [exact upper_is_word|].
  intros c Hc. now rewrite Hc in Hw.
Qed.

Lemma shape_here_shaped (s : pystr) :
  shape_here s = true -> ticker_shaped (take_while is_ascii_upper s) = true.
Proof.
  intros H. apply shape_here_inv in H as [[H2 H6] _].
  unfold ticker_shaped, length_2_to_6. rewrite take_while_all. cbn [andb].
  apply andb_true_iff; split; now apply Nat.leb_le.
Qed.

Lemma not_shape_here (s : pystr) :
  shape_here s = false -> ticker_shaped (take_while is_word s) = false.
Proof.
  intros H. destruct (ticker_shaped (take_while is_word s)) eqn:E;
    [|reflexivity].
  unfold ticker_shaped, length_2_to_6 in E.
  apply andb_true_iff in E as [Hall Hlen].
  apply (take_while_within is_ascii_upper is_word s upper_is_word) in Hall.
  unfold shape_here in H. rewrite Hall, Hlen, word_at_after_run in H.
  discriminate.
Qed.

(** At a position where the letters have the shape of a ticker, the word run
    that starts there is those letters, and it is kept. *)
Lemma runs_from_at_match (s : pystr) :
  shape_here s = true ->
  filter ticker_shaped (runs_from is_word false s)
  = take_while is_ascii_upper s
    :: filter ticker_shaped
         (runs_from is_word true
            (skipn (length (take_while is_ascii_upper s)) s)).
Proof.
  intros H. pose proof (shape_here_run s H) as Hrun.
  pose proof (shape_here_shaped s H) as Hshaped.
  apply shape_here_inv in H as [[H2 _] _].
  destruct s as [|c s]; [simpl in H2; lia|]. simpl in H2.
  destruct (is_ascii_upper c) eqn:Ec; [|simpl in H2; lia].
  cbn [runs_from]. rewrite (upper_is_word c Ec). cbn [filter].
  rewrite Hrun, Hshaped. f_equal. f_equal.
  simpl take_while. rewrite Ec. cbn [length skipn].
  rewrite <- (firstn_skipn (length (take_while is_ascii_upper s)) s) at 1.
  apply runs_from_skip. rewrite take_while_firstn.
  apply forallb_forall. intros x Hx. apply upper_is_word.
  pose proof (take_while_all is_ascii_upper s) as Hall.
  rewrite forallb_forall in Hall. auto.
Qed.

Lemma run_TICKER_REGEX (b s : pystr) (g : list (nat * pystr)) :
  run TICKER_REGEX (MState b s g)
  = match s with
    | c :: s' =>
        if is_marker c then run ticker_tail (MState (c :: b) s' g) else []
    | [] => []
    end ++ run ticker_tail (MState b s g).
Proof.
  change (run TICKER_REGEX (MState b s g))
    with (flat_map (run ticker_tail)
            ((eat (N.eqb 36) (MState b s g) ++ eat (N.eqb 35) (MState b s g))
             ++ [MState b s g])).
  rewrite flat_map_app. cbn [flat_map]. rewrite app_nil_r. f_equal.
  unfold eat, is_marker. cbn [after before groups].
  destruct s as [|c s']; [reflexivity|].
  destruct (36 =? c)%N eqn:E1; destruct (35 =? c)%N eqn:E2; cbn [orb].
  - apply N.eqb_eq in E1, E2. congruence.
  - simpl. now rewrite app_nil_r.
  - simpl. now rewrite app_nil_r.
  - reflexivity.
Qed.

(** Every match of [TICKER_REGEX] consumes something. *)
Lemma run_TICKER_REGEX_consumes (b s : pystr) (g : list (nat * pystr))
    (m : mstate) :
  In m (run TICKER_REGEX (MState b s g)) -> length (after m) < length s.
Proof.
  assert (Hend : forall b0 s0 g0,
             tail_matches b0 s0 = true ->
             length (after (ticker_end b0 s0 g0)) + 2 <= length s0).
  { intros b0 s0 g0 H. unfold tail_matches in H.
    apply andb_true_iff in H as [_ H].
    apply shape_here_inv in H as [[H2 _] _].
    pose proof (take_while_length is_ascii_upper s0).
    unfold ticker_end. cbn [after]. rewrite length_skipn. lia. }
  rewrite run_TICKER_REGEX, in_app_iff. intros [H|H].
  - destruct s as [|c s']; [destruct H|].
    destruct (is_marker c); [|destruct H].
    apply In_run_tail in H as [-> H]. specialize (Hend _ _ g H).
    cbn [length]. lia.
  - apply In_run_tail in H as [-> H]. specialize (Hend _ _ g H). lia.
Qed.

Lemma word_at_ticker_end (b s : pystr) :
  shape_here s = true ->
  word_at (hd_error (rev (take_while is_ascii_upper s) ++ b)) = true.
Proof.
  intros H. apply shape_here_inv in H as [[H2 _] _].
  destruct (hd_rev_app (take_while is_ascii_upper s) b) as (c & -> & Hin).
  { intros E. rewrite E in H2. simpl in H2. lia. }
  pose proof (take_while_all is_ascii_upper s) as Hall.
  rewrite forallb_forall in Hall. simpl. apply upper_is_word. auto.
Qed.

(** The scan: from a position whose previous character is [hd_error b], the
    tickers [finditer] captures are the ticker-shaped word runs that start at
    or after the position. *)
Lemma finditer_from_tickers (fuel : nat) :
  forall (s b : pystr) (g : list (nat * pystr)),
    length s < fuel ->
    tickers_found (finditer_from fuel TICKER_REGEX (MState b s g))
    = filter ticker_shaped (runs_from is_word (word_at (hd_error b)) s).
Proof.
  induction fuel as [|fuel IH]; intros s b g Hfuel; [lia|].
  cbn [finditer_from before after]. rewrite run_TICKER_REGEX.
  destruct s as [|c s'].
  - pose proof (run_tail_cases b [] []) as H.
    replace (tail_matches b []) with false in H
      by (unfold tail_matches, shape_here; simpl; now rewrite andb_false_r).
    now rewrite H.
  - cbn [length] in Hfuel.
    assert (Hnext : forall (b0 : pystr) (s0 : pystr) (inside : bool),
      shape_here s0 = true -> length s0 <= length (c :: s') ->
      tickers_found
        (let m := ticker_end b0 s0 [] in
         if length (after m) <? length (c :: s')
         then m :: finditer_from fuel TICKER_REGEX m
         else m :: match after m with
                   | x :: rest =>
                       finditer_from fuel TICKER_REGEX
                         (MState (x :: before m) rest [])
                   | [] => []
                   end)
      = filter ticker_shaped (runs_from is_word false s0)).
    { intros b0 s0 inside Hs Hlen. cbn zeta.
      pose proof (shape_here_inv s0 Hs) as [[H2 _] _].
      pose proof (take_while_length is_ascii_upper s0) as Hn.
      unfold ticker_end at 1. cbn [after]. rewrite length_skipn.
      replace (_ <? _) with true
        by (symmetry; apply Nat.ltb_lt; cbn [length] in *; lia).
      unfold tickers_found; cbn [map]. fold (tickers_found).
      unfold ticker_end at 1. cbn [groups group Nat.eqb].
      unfold ticker_end, tickers_found in *. rewrite IH.
      - rewrite word_at_ticker_end by assumption.
        now rewrite runs_from_at_match.
      - rewrite length_skipn. cbn [length] in *. lia. }
    destruct (is_word c) eqn:Ew.
    + assert (Emk : is_marker c = false).
      { destruct (is_marker c) eqn:E; [|reflexivity].
        apply orb_true_iff in E. apply marker_not_word in E. congruence. }
      rewrite Emk. cbn [app].
      pose proof (run_tail_cases b (c :: s') []) as H.
      destruct (tail_matches b (c :: s')) eqn:Em.
      * destruct H as [tl ->].
        unfold tail_matches in Em. apply andb_true_iff in Em as [Eb Es].
        cbn [hd_error word_at] in Eb. rewrite Ew in Eb.
        destruct (word_at (hd_error b)); [discriminate|].
        apply (Hnext b (c :: s') false Es). lia.
      * rewrite H. rewrite IH by lia. cbn [hd_error word_at runs_from].
        rewrite Ew. destruct (word_at (hd_error b)) eqn:Eb; [reflexivity|].
        cbn [filter]. unfold tail_matches in Em. rewrite Eb in Em.
        cbn [hd_error word_at] in Em. rewrite Ew in Em. cbn in Em.
        now rewrite (not_shape_here _ Em).
    + assert (Et : run ticker_tail (MState b (c :: s') []) = []).
      { pose proof (run_tail_cases b (c :: s') []) as H.
        replace (tail_matches b (c :: s')) with false in H; [exact H|].
        unfold tail_matches, shape_here. cbn [take_while].
        destruct (is_ascii_upper c) eqn:Ec.
        - apply upper_is_word in Ec. congruence.
        - simpl. now rewrite andb_false_r. }
      rewrite Et, app_nil_r. cbn [runs_from]. rewrite Ew.
      destruct (is_marker c).
      * pose proof (run_tail_cases (c :: b) s' []) as H.
        destruct (tail_matches (c :: b) s') eqn:Em.
        -- destruct H as [tl ->].
           unfold tail_matches in Em. apply andb_true_iff in Em as [_ Es].
           apply (Hnext (c :: b) s' false Es). cbn [length]. lia.
        -- rewrite H. rewrite IH by lia. cbn [hd_error word_at].
           now rewrite Ew.
      * rewrite IH by lia. cbn [hd_error word_at]. now rewrite Ew.
Qed.

End Matching.

(** ** Extraction *)

Section ExtractionTheorems.
Context {U : UnicodeData}.

Lemma extract_tickers_runs (text : pystr) :
  extract_tickers text
  = filter (fun t => negb (in_stopwords t))
      (filter ticker_shaped (runs_from is_word false (upper text))).
Proof.
  unfold extract_tickers, finditer.
  destruct text as [|c text]; [reflexivity|].
  cbv zeta. f_equal.
  exact (finditer_from_tickers _ (upper (c :: text)) [] []
           (Nat.lt_succ_diag_r _)).
Qed.

(** C4, as amended.  For every text, the pattern-based extraction is the
    tokenizer that upper-cases the text, takes the maximal runs of word
    characters (letters, digits, underscore), keeps the runs made of 2 to 6
    letters A-Z and drops the stopwords: same tokens, same order. *)
Theorem extract_tickers_word_tokenizer (text : pystr) :
  extract_tickers text = word_tokenizer text.
Proof. exact (extract_tickers_runs text). Qed.

(** C3, as amended.  On "Buy $BTC and $ETH now, $BTC again" the extractor
    returns BUY, BTC, ETH, NOW, BTC, AGAIN: every word of 2 to 6 letters in
    order of occurrence, duplicates kept, the stopword AND left out. *)
Theorem extract_tickers_buy_btc :
  extract_tickers (lit "Buy $BTC and $ETH now, $BTC again")
  = [lit "BUY"; lit "BTC"; lit "ETH"; lit "NOW"; lit "BTC"; lit "AGAIN"].
Proof. reflexivity. Qed.

End ExtractionTheorems.

(** C3 as stated fails: whatever the Unicode tables, the result is not
    BTC, ETH, BTC. *)
Lemma extract_tickers_buy_btc_not_three :
  ~ exists U : UnicodeData,
      @extract_tickers U (lit "Buy $BTC and $ETH now, $BTC again")
      = [lit "BTC"; lit "ETH"; lit "BTC"].
Proof. intros [U H]. discriminate H. Qed.

(** C4 as stated fails: of "BTC1" the pattern extracts nothing, since no
    word boundary separates C from 1, while the run of letters BTC is a token
    of the tokenizer the note describes. *)
Lemma extract_tickers_not_letter_runs :
  (forall U : UnicodeData, @extract_tickers U (lit "BTC1") = [])
  /\ (forall U : UnicodeData, @spec_tokenizer U (lit "BTC1") = [lit "BTC"]).
Proof. split; intros U; reflexivity. Qed.

(** ** The message store *)

Lemma existsb_same_key (r : row) (t : table) :
  existsb (same_key r) t = true <-> In (key_of_row r) (map key_of_row t).
Proof.
  rewrite existsb_exists, in_map_iff. unfold same_key, key_of_row.
  split; intros (x & H1 & H2); exists x.
  - apply andb_true_iff in H2 as [Hc Hi]. apply Z.eqb_eq in Hc, Hi.
    split; [congruence|assumption].
  - injection H1 as Hc Hi. split; [assumption|].
    rewrite Hc, Hi, !Z.eqb_refl. reflexivity.
Qed.

Lemma insert_or_ignore_new (r : row) (t : table) :
  ~ In (key_of_row r) (map key_of_row t) -> insert_or_ignore r t = t ++ [r].
Proof.
  intros H. unfold insert_or_ignore.
  destruct (existsb (same_key r) t) eqn:E; [|reflexivity].
  now apply existsb_same_key in E.
Qed.

Lemma insert_or_ignore_known (r : row) (t : table) :
  In (key_of_row r) (map key_of_row t) -> insert_or_ignore r t = t.
Proof.
  intros H. unfold insert_or_ignore.
  now rewrite (proj2 (existsb_same_key r t) H).
Qed.

Lemma insert_or_ignore_unique (r : row) (t : table) :
  unique_keys t -> unique_keys (insert_or_ignore r t).
Proof.
  unfold unique_keys, insert_or_ignore. intros H.
  destruct (existsb (same_key r) t) eqn:E; [assumption|].
  rewrite map_app. simpl. apply NoDup_app.
  - assumption.
  - constructor; [intros []|constructor].
  - intros k Hk [<-|[]]. apply existsb_same_key in Hk. congruence.
Qed.

(** What a call does to a database at rest when no sqlite3 call fails. *)
Lemma store_message_healthy (m : Message) (t : table) :
  store_message m healthy (at_rest t)
  = (Returned tt,
     at_rest (if falsy (msg_message m) then t
              else insert_or_ignore (row_of_message m) t)).
Proof.
  unfold store_message. destruct (falsy (msg_message m)); reflexivity.
Qed.

(** Whatever fails, a call leaves the database at rest, with the table it
    had or with the row inserted. *)
Lemma store_message_table (m : Message) (fails : db_op -> bool) (t : table) :
  snd (store_message m fails (at_rest t)) = at_rest t
  \/ snd (store_message m fails (at_rest t))
     = at_rest (insert_or_ignore (row_of_message m) t).
Proof.
  unfold store_message, with_connection, execute_insert_or_ignore, commit,
    bind, call, ret.
  destruct (falsy (msg_message m)); [now left|].
  destruct (fails op_connect); [now left|]. simpl.
  destruct (fails op_execute); [now left|]. simpl.
  destruct (fails op_commit); [now left|]. now right.
Qed.

Lemma filter_has_key_absent (c i : Z) (t : table) :
  ~ In (c, i) (map key_of_row t) -> filter (has_key c i) t = [].
Proof.
  induction t as [|r t IH]; simpl; [reflexivity|]. intros H.
  destruct (has_key c i r) eqn:E.
  - exfalso. apply H. left. unfold has_key in E.
    apply andb_true_iff in E as [Hc Hi]. apply Z.eqb_eq in Hc, Hi.
    unfold key_of_row. congruence.
  - apply IH. tauto.
Qed.

(** C1, as amended.  When the pair (chat id, message id) is not yet in the
    table and the first message has a text, two calls with that pair leave
    exactly one row for it, holding the fields of the first call; the second
    call returns as every call does and changes nothing.  Every call, on
    every table and whatever fails, keeps the pairs of the table distinct. *)
Theorem store_message_first_write_wins (t : table) (m1 m2 : Message) :
  falsy (msg_message m1) = false ->
  msg_chat_id m2 = msg_chat_id m1 ->
  msg_id m2 = msg_id m1 ->
  ~ In (msg_chat_id m1, msg_id m1) (map key_of_row t) ->
  let first := store_message m1 healthy (at_rest t) in
  let second := store_message m2 healthy (snd first) in
  first = (Returned tt, at_rest (t ++ [row_of_message m1]))
  /\ second = (Returned tt, snd first)
  /\ filter (has_key (msg_chat_id m1) (msg_id m1)) (committed (snd second))
     = [row_of_message m1]
  /\ (forall (t' : table) (m : Message) (fails : db_op -> bool),
         unique_keys t' ->
         unique_keys (committed (snd (store_message m fails (at_rest t'))))).
Proof.
  intros Htext Hc Hi Hnew first second.
  assert (H1 : first = (Returned tt, at_rest (t ++ [row_of_message m1]))).
  { unfold first. rewrite store_message_healthy, Htext.
    now rewrite insert_or_ignore_new. }
  assert (H2 : second = (Returned tt, snd first)).
  { unfold second. rewrite H1. cbn [snd]. rewrite store_message_healthy.
    destruct (falsy (msg_message m2)); [reflexivity|].
    rewrite insert_or_ignore_known; [reflexivity|].
    rewrite map_app, in_app_iff. right. left.
    unfold key_of_row, row_of_message; simpl. congruence. }
  repeat split; try assumption.
  - rewrite H2, H1. cbn [snd committed at_rest].
    rewrite filter_app, filter_has_key_absent by assumption.
    unfold has_key, row_of_message; simpl. now rewrite !Z.eqb_refl.
  - intros t' m fails Hu.
    destruct (store_message_table m fails t') as [-> | ->]; simpl;
      [assumption|now apply insert_or_ignore_unique].
Qed.

Lemma store_message_first_write_wins_witness :
  let m1 := plain_message 7 1 (utc 2024 1 2 3 4 5) (Some (lit "buy BTC")) in
  let m2 := plain_message 7 1 (utc 2024 1 9 9 9 9) (Some (lit "sell ETH")) in
  let db := snd (store_message m2 healthy
                   (snd (store_message m1 healthy (at_rest [])))) in
  committed db = [row_of_message m1].
Proof.
  intros m1 m2 db.
  destruct (store_message_first_write_wins [] m1 m2) as (H1 & H2 & _);
    [reflexivity|reflexivity|reflexivity|intros []|].
  unfold db. rewrite H2, H1. reflexivity.
Defined.

(** C1 as stated fails on a table that already holds the pair: the row kept
    is the earlier one, not that of the first of the two calls. *)
Lemma store_message_keeps_earlier_row :
  let old := row_of_message
               (plain_message 7 1 (utc 2023 12 31 0 0 0) (Some (lit "old"))) in
  let m1 := plain_message 7 1 (utc 2024 1 2 3 4 5) (Some (lit "buy BTC")) in
  let m2 := plain_message 7 1 (utc 2024 1 9 9 9 9) (Some (lit "sell ETH")) in
  let db := snd (store_message m2 healthy
                   (snd (store_message m1 healthy (at_rest [old])))) in
  filter (has_key 7 1) (committed db) = [old]
  /\ [old] <> [row_of_message m1].
Proof. split; [reflexivity|discriminate]. Qed.

(** C9.  A message whose text is absent or empty is ignored: the call
    returns without raising, whatever the state of the store, no sqlite3
    call is made, and the database is the one it was. *)
Theorem store_message_without_text (m : Message) (fails : db_op -> bool)
    (db : database) :
  msg_message m = None \/ msg_message m = Some [] ->
  store_message m fails db = (Returned tt, db).
Proof.
  intros [H|H]; unfold store_message; rewrite H; reflexivity.
Qed.

Lemma store_message_without_text_witness :
  let db := at_rest [row_of_message
                       (plain_message 7 1 (utc 2024 1 2 3 4 5)
                          (Some (lit "buy BTC")))] in
  store_message (plain_message 7 2 (utc 2024 1 2 3 4 6) None)
    (fun _ => true) db = (Returned tt, db)
  /\ store_message (plain_message 7 2 (utc 2024 1 2 3 4 6) (Some []))
       healthy db = (Returned tt, db).
Proof.
  intros db. split.
  - apply store_message_without_text. left. reflexivity.
  - apply store_message_without_text. right. reflexivity.
Defined.

(** C8, as amended.  A call of [store_message] with a text, and every call
    of [load_messages_since], raises the error of the sqlite3 call that
    fails, be it the connection, the statement, the commit or the fetch;
    nothing is returned in its place and the table is left as it was. *)
Theorem store_failures_propagate (fails : db_op -> bool) (t : table) :
  (forall m : Message,
      falsy (msg_message m) = false ->
      fails op_connect = true \/ fails op_execute = true
      \/ fails op_commit = true ->
      exists op, fails op = true
                 /\ store_message m fails (at_rest t)
                    = (Raised (sqlite3_Error op), at_rest t))
  /\ (forall since : datetime,
         fails op_connect = true \/ fails op_execute = true
         \/ fails op_fetchall = true ->
         exists op, fails op = true
                    /\ load_messages_since since fails (at_rest t)
                       = (Raised (sqlite3_Error op), at_rest t)).
Proof.
  split.
  - intros m Htext H.
    unfold store_message, with_connection, execute_insert_or_ignore, commit,
      bind, call, ret. rewrite Htext.
    destruct (fails op_connect) eqn:E1; [now exists op_connect|]. simpl.
    destruct (fails op_execute) eqn:E2; [now exists op_execute|]. simpl.
    destruct (fails op_commit) eqn:E3; [now exists op_commit|].
    destruct H as [H|[H|H]]; discriminate.
  - intros since H.
    unfold load_messages_since, with_connection, execute_select_since,
      fetchall, bind, call, ret.
    destruct (fails op_connect) eqn:E1; [now exists op_connect|]. simpl.
    destruct (fails op_execute) eqn:E2; [now exists op_execute|]. simpl.
    destruct (fails op_fetchall) eqn:E3; [now exists op_fetchall|].
    destruct H as [H|[H|H]]; discriminate.
Qed.

Lemma store_failures_propagate_witness :
  let fails := fun op => match op with op_commit => true | _ => false end in
  let m := plain_message 7 1 (utc 2024 1 2 3 4 5) (Some (lit "buy BTC")) in
  exists op,
    store_message m fails (at_rest [])
    = (Raised (sqlite3_Error op), at_rest []).
Proof.
  intros fails m.
  destruct (proj1 (store_failures_propagate fails []) m eq_refl
              (or_intror (or_intror eq_refl))) as (op & _ & H).
  now exists op.
Defined.

(** C8 as stated fails for a message without text: with every sqlite3 call
    failing, the call returns as if nothing were wrong. *)
Lemma store_message_without_text_unreachable :
  store_message (plain_message 7 1 (utc 2024 1 2 3 4 5) None)
    (fun _ => true) (at_rest [])
  = (Returned tt, at_rest []).
Proof. reflexivity. Qed.

(** ** Reading the window *)

Lemma text_leb_refl (a : pystr) : text_leb a a = true.
Proof.
  induction a as [|x a IH]; simpl; [reflexivity|].
  now rewrite N.ltb_irrefl, N.eqb_refl.
Qed.

Lemma text_leb_total (a b : pystr) :
  text_leb a b = false -> text_leb b a = true.
Proof.
  revert b; induction a as [|x a IH]; intros [|y b]; simpl;
    try discriminate; try reflexivity.
  destruct (x <? y)%N eqn:E1; [discriminate|].
  destruct (x =? y)%N eqn:E2.
  - apply N.eqb_eq in E2; subst. rewrite N.ltb_irrefl, N.eqb_refl.
    apply IH.
  - intros _. apply N.ltb_ge in E1. apply N.eqb_neq in E2.
    now replace (y <? x)%N with true by (symmetry; apply N.ltb_lt; lia).
Qed.

Lemma text_leb_trans (a b c : pystr) :
  text_leb a b = true -> text_leb b c = true -> text_leb a c = true.
Proof.
  revert b c; induction a as [|x a IH]; intros [|y b] [|z c]; simpl;
    try discriminate; try reflexivity.
  destruct (x <? y)%N eqn:Exy; destruct (y <? z)%N eqn:Eyz;
    destruct (x =? y)%N eqn:Qxy; destruct (y =? z)%N eqn:Qyz;
    try discriminate;
    repeat match goal with
           | H : (_ <? _)%N = true |- _ => apply N.ltb_lt in H
           | H : (_ <? _)%N = false |- _ => apply N.ltb_ge in H
           | H : (_ =? _)%N = true |- _ => apply N.eqb_eq in H
           | H : (_ =? _)%N = false |- _ => apply N.eqb_neq in H
           end;
    intros H1 H2;
    try (replace (x <? z)%N with true by (symmetry; apply N.ltb_lt; lia);
         reflexivity);
    try lia.
  subst. rewrite N.ltb_irrefl, N.eqb_refl. now apply (IH b c).
Qed.

Lemma insert_by_date_perm (r : row) (l : list row) :
  Permutation (insert_by_date r l) (r :: l).
Proof.
  induction l as [|x l IH]; simpl; [reflexivity|].
  destruct (text_leb _ _); [reflexivity|].
  rewrite IH. apply perm_swap.
Qed.

Lemma order_by_date_perm (l : list row) : Permutation (order_by_date l) l.
Proof.
  induction l as [|x l IH]; simpl; [reflexivity|].
  rewrite insert_by_date_perm. now constructor.
Qed.

Lemma insert_by_date_sorted (r : row) (l : list row) :
  StronglySorted rows_by_date l ->
  StronglySorted rows_by_date (insert_by_date r l).
Proof.
  induction 1 as [|x l Hs IH Hx]; simpl.
  - repeat constructor.
  - destruct (text_leb (message_date r) (message_date x)) eqn:E.
    + constructor; [now constructor|]. constructor; [exact E|].
      eapply Forall_impl; [|exact Hx]. intros y Hy.
      unfold rows_by_date in *. now apply (text_leb_trans _ (message_date x)).
    + constructor; [exact IH|].
      eapply Permutation_Forall;
        [apply Permutation_sym, insert_by_date_perm|].
      constructor; [|exact Hx]. now apply text_leb_total.
Qed.

Lemma order_by_date_sorted (l : list row) :
  StronglySorted rows_by_date (order_by_date l).
Proof.
  induction l as [|x l IH]; simpl; [constructor|].
  now apply insert_by_date_sorted.
Qed.


(** *** Timestamps as text

    For dates within the interpreter's ranges, the order of the texts
    [isoformat] writes is the order of the calendar fields. *)

Lemma pystr_eqb_app (x y s t : pystr) :
  length x = length y ->
  pystr_eqb (x ++ s) (y ++ t) = pystr_eqb x y && pystr_eqb s t.
Proof.
  revert y; induction x as [|a x IH]; intros [|b y]; simpl;
    try discriminate; [reflexivity|].
  intros [= H]. rewrite (IH y H). now rewrite andb_assoc.
Qed.

Lemma text_leb_app (x y s t : pystr) :
  length x = length y ->
  text_leb (x ++ s) (y ++ t)
  = if pystr_eqb x y then text_leb s t else text_leb x y.
Proof.
  revert y; induction x as [|a x IH]; intros [|b y]; simpl;
    try discriminate; [reflexivity|].
  intros [= H]. rewrite (IH y H).
  destruct (a <? b)%N eqn:E1; destruct (a =? b)%N eqn:E2; simpl;
    try reflexivity.
  apply N.ltb_lt in E1. apply N.eqb_eq in E2. lia.
Qed.

Lemma text_leb_sep (c : char) (s t : pystr) :
  text_leb (c :: s) (c :: t) = text_leb s t.
Proof. simpl. now rewrite N.ltb_irrefl, N.eqb_refl. Qed.

Lemma length_digits (w : nat) (n : N) : length (digits w n) = w.
Proof.
  revert n; induction w as [|w IH]; intros n; simpl; [reflexivity|].
  rewrite length_app, IH. simpl. lia.
Qed.

Lemma pow10_succ (w : nat) :
  (10 ^ N.of_nat (S w) = 10 * 10 ^ N.of_nat w)%N.
Proof. rewrite Nat2N.inj_succ. apply N.pow_succ_r'. Qed.

Lemma div10_facts (a : N) : (a = 10 * (a / 10) + a mod 10 /\ a mod 10 < 10)%N.
Proof.
  split; [apply N.div_mod'|]. now apply N.mod_lt.
Qed.

Lemma div10_lt (a p : N) : (a < 10 * p)%N -> (a / 10 < p)%N.
Proof. intros H. now apply N.Div0.div_lt_upper_bound. Qed.

Lemma digits_order (w : nat) :
  forall a b : N,
    (a < 10 ^ N.of_nat w)%N -> (b < 10 ^ N.of_nat w)%N ->
    pystr_eqb (digits w a) (digits w b) = (a =? b)%N
    /\ text_leb (digits w a) (digits w b) = (a <=? b)%N.
Proof.
  induction w as [|w IH]; intros a b Ha Hb.
  - simpl in Ha, Hb. assert (a = 0 /\ b = 0)%N as [-> ->] by lia.
    split; reflexivity.
  - rewrite pow10_succ in Ha, Hb.
    destruct (div10_facts a) as [Ea Ra], (div10_facts b) as [Eb Rb].
    destruct (IH (a / 10) (b / 10))%N as [IH1 IH2];
      [now apply div10_lt|now apply div10_lt|].
    clear IH Ha Hb. cbn [digits]. unfold digit_char.
    rewrite pystr_eqb_app, text_leb_app by now rewrite !length_digits.
    rewrite IH1, IH2. cbn [pystr_eqb text_leb]. rewrite andb_true_r.
    clear IH1 IH2. revert Ea Ra Eb Rb.
    generalize (a / 10)%N (b / 10)%N (a mod 10)%N (b mod 10)%N.
    intros qa qb ra rb Ea Ra Eb Rb. split; compare_N.
Qed.

Lemma text_leb_field (w : nat) (a b : N) (s t : pystr) :
  (a < 10 ^ N.of_nat w)%N -> (b < 10 ^ N.of_nat w)%N ->
  text_leb (digits w a ++ s) (digits w b ++ t) = lex a b (text_leb s t).
Proof.
  intros Ha Hb. destruct (digits_order w a b Ha Hb) as [H1 H2].
  rewrite text_leb_app by now rewrite !length_digits.
  rewrite H1, H2. unfold lex. compare_N.
Qed.

Lemma digits_zero (k : nat) : digits k 0 = repeat 48%N k.
Proof.
  induction k as [|k IH]; [reflexivity|].
  cbn [digits]. change (0 / 10)%N with 0%N. rewrite IH.
  change [digit_char 0] with [48%N]. symmetry. apply repeat_cons.
Qed.

Lemma digits_pad (k m : nat) :
  forall n : N,
    (n < 10 ^ N.of_nat m)%N -> digits (k + m) n = repeat 48%N k ++ digits m n.
Proof.
  induction m as [|m IH]; intros n Hn.
  - simpl in Hn. assert (n = 0)%N as -> by lia.
    rewrite Nat.add_0_r, digits_zero. simpl. now rewrite app_nil_r.
  - rewrite pow10_succ in Hn. destruct (div10_facts n) as [En Rn].
    rewrite Nat.add_succ_r. cbn [digits].
    rewrite IH by now apply div10_lt. now rewrite <- app_assoc.
Qed.

Lemma nb_digits_le (fuel : nat) :
  forall (n : N) (w : nat),
    1 <= w -> (n < 10 ^ N.of_nat w)%N -> nb_digits fuel n <= w.
Proof.
  induction fuel as [|fuel IH]; intros n w Hw Hn; simpl; [assumption|].
  destruct (N.ltb_spec n 10); [assumption|].
  destruct w as [|w]; [lia|]. rewrite pow10_succ in Hn.
  destruct (div10_facts n) as [En Rn].
  destruct w as [|w]; [simpl in Hn; lia|].
  apply le_n_S, IH; [lia|now apply div10_lt].
Qed.

Lemma nb_digits_enough (fuel : nat) :
  forall n : N,
    (n < 10 * 8 ^ N.of_nat fuel)%N ->
    (n < 10 ^ N.of_nat (nb_digits fuel n))%N.
Proof.
  induction fuel as [|fuel IH]; intros n Hn.
  - simpl in *. lia.
  - cbn [nb_digits]. destruct (N.ltb_spec n 10); [simpl; lia|].
    rewrite pow10_succ. rewrite Nat2N.inj_succ, N.pow_succ_r' in Hn.
    destruct (div10_facts n) as [En Rn].
    assert (Hq : (n / 10 < 10 * 8 ^ N.of_nat fuel)%N).
    { apply div10_lt. lia. }
    specialize (IH (n / 10)%N Hq).
    revert En Rn IH. generalize (n / 10)%N (n mod 10)%N
      (10 ^ N.of_nat (nb_digits fuel (n / 10)))%N.
    intros q r p. lia.
Qed.

Lemma log2_fuel (n : N) : (n < 10 * 8 ^ N.of_nat (N.to_nat (N.log2 n)))%N.
Proof.
  rewrite N2Nat.id. destruct n as [|p]; [simpl; lia|].
  pose proof (N.log2_spec (N.pos p) eq_refl) as [_ H].
  rewrite N.pow_succ_r' in H.
  assert (2 ^ N.log2 (N.pos p) <= 8 ^ N.log2 (N.pos p))%N
    by (apply N.pow_le_mono_l; lia).
  lia.
Qed.

Lemma zfill_digits (w : nat) (n : N) :
  1 <= w -> (n < 10 ^ N.of_nat w)%N -> zfill w n = digits w n.
Proof.
  intros Hw Hn. unfold zfill, decimal.
  set (m := nb_digits (N.to_nat (N.log2 n)) n).
  assert (Hm : m <= w) by now apply nb_digits_le.
  assert (Hnm : (n < 10 ^ N.of_nat m)%N)
    by apply nb_digits_enough, log2_fuel.
  cbv zeta. rewrite length_digits, <- digits_pad by assumption.
  f_equal. lia.
Qed.

Lemma isoformat_valid (d : datetime) :
  valid_datetime d ->
  isoformat d
  = digits 4 (year d) ++ 45%N :: digits 2 (month d) ++ 45%N
    :: digits 2 (day d) ++ 84%N :: digits 2 (hour d) ++ 58%N
    :: digits 2 (minute d) ++ 58%N :: digits 2 (second d) ++ iso_tail d.
Proof.
  intros (Hy & Hmo & Hd & Hh & Hmi & Hs & Hus). unfold isoformat, iso_tail.
  rewrite (zfill_digits 4), !(zfill_digits 2) by (simpl; lia).
  destruct (microsecond d =? 0)%N.
  - repeat (rewrite <- app_assoc; cbn [lit list_ascii_of_string map app]).
    reflexivity.
  - rewrite (zfill_digits 6) by (simpl; lia).
    repeat (rewrite <- app_assoc; cbn [lit list_ascii_of_string map app]).
    reflexivity.
Qed.

Lemma format_offset_head (o : Z) :
  exists c r, format_offset (Some o) = c :: r /\ (c = 43 \/ c = 45)%N.
Proof.
  unfold format_offset. destruct (o <? 0)%Z; eexists; eexists;
    (split; [reflexivity|]); [now right|now left].
Qed.

Lemma iso_tail_order (a b : datetime) :
  valid_datetime a -> valid_datetime b ->
  utcoffset a = None \/ utcoffset a = utcoffset b ->
  text_leb (iso_tail a) (iso_tail b) = (microsecond a <=? microsecond b)%N.
Proof.
  intros (_ & _ & _ & _ & _ & _ & Ha) (_ & _ & _ & _ & _ & _ & Hb) Hoff.
  unfold iso_tail.
  assert (Hsame : forall o, text_leb (format_offset o) (format_offset o) = true)
    by (intros; apply text_leb_refl).
  assert (Hdot : forall o r,
             text_leb (46%N :: r) (format_offset o) = false).
  { intros [o|] r; [|reflexivity].
    destruct (format_offset_head o) as (c & r' & -> & [->| ->]); reflexivity. }
  assert (Hoff' : forall o r,
             text_leb (format_offset o) (46%N :: r) = true).
  { intros [o|] r; [|reflexivity].
    destruct (format_offset_head o) as (c & r' & -> & [->| ->]); reflexivity. }
  destruct (N.eqb_spec (microsecond a) 0) as [Ea|Ea];
    destruct (N.eqb_spec (microsecond b) 0) as [Eb|Eb]; cbn [app].
  - rewrite Ea, Eb. destruct Hoff as [->| ->]; [reflexivity|apply Hsame].
  - rewrite Ea, Hoff'. compare_N.
  - rewrite Eb, Hdot. compare_N.
  - rewrite text_leb_sep, text_leb_field by (simpl; lia).
    unfold lex. destruct Hoff as [->| ->]; cbn [format_offset];
      rewrite ?Hsame; compare_N.
Qed.

(** For dates with the same offset, or when the first has none, the order
    of the texts is the order of the calendar fields. *)
Lemma isoformat_order (a b : datetime) :
  valid_datetime a -> valid_datetime b ->
  utcoffset a = None \/ utcoffset a = utcoffset b ->
  text_leb (isoformat a) (isoformat b) = datetime_leb a b.
Proof.
  intros Ha Hb Hoff.
  rewrite (isoformat_valid a Ha), (isoformat_valid b Hb).
  pose proof (iso_tail_order a b Ha Hb Hoff) as Htail.
  destruct Ha as (Hy & Hmo & Hd & Hh & Hmi & Hs & _).
  destruct Hb as (Hy' & Hmo' & Hd' & Hh' & Hmi' & Hs' & _).
  unfold datetime_leb.
  repeat (rewrite text_leb_field by (simpl; lia);
          rewrite ?text_leb_sep).
  now rewrite Htail.
Qed.

(** ** The calendar *)

Lemma div_pred (k p : N) :
  (0 < k)%N -> (1 <= p)%N ->
  (p / k = (p - 1) / k + (if p mod k =? 0 then 1 else 0))%N.
Proof.
  intros Hk Hp.
  pose proof (N.div_mod p k ltac:(lia)) as E.
  pose proof (N.mod_upper_bound p k ltac:(lia)) as Hr.
  revert E Hr. generalize (p / k)%N as q, (p mod k)%N as r. intros q r E Hr.
  destruct (N.eqb_spec r 0) as [E0|E0].
  - subst r. rewrite N.add_0_r in E.
    assert (H : (q = (q - 1) + 1)%N) by nia.
    rewrite H at 1. f_equal.
    apply (N.div_unique _ _ _ (k - 1)); nia.
  - rewrite N.add_0_r.
    apply (N.div_unique _ _ _ (r - 1)); nia.
Qed.

Lemma days_before_year_succ (y : N) :
  (1 <= y)%N ->
  (days_before_year (y + 1)
   = days_before_year y + 365 + (if is_leap y then 1 else 0))%N.
Proof.
  intros Hy. unfold days_before_year, is_leap. cbv zeta.
  replace (y + 1 - 1)%N with y by lia.
  pose proof (div_pred 4 y ltac:(lia) Hy) as H4.
  pose proof (div_pred 100 y ltac:(lia) Hy) as H100.
  pose proof (div_pred 400 y ltac:(lia) Hy) as H400.
  assert (L1 : ((y - 1) / 100 <= (y - 1) / 4)%N).
  { apply N.div_le_compat_l; lia. }
  assert (M1 : (y mod 100 = 0 -> y mod 4 = 0)%N).
  { intros E. pose proof (N.div_mod y 100 ltac:(lia)) as D.
    rewrite E, N.add_0_r in D. rewrite D.
    replace (100 * (y / 100))%N with ((y / 100 * 25) * 4)%N by lia.
    apply N.Div0.mod_mul. }
  assert (M2 : (y mod 400 = 0 -> y mod 100 = 0)%N).
  { intros E. pose proof (N.div_mod y 400 ltac:(lia)) as D.
    rewrite E, N.add_0_r in D. rewrite D.
    replace (400 * (y / 400))%N with ((y / 400 * 4) * 100)%N by lia.
    apply N.Div0.mod_mul. }
  revert H4 H100 H400 L1 M1 M2.
  generalize (y / 4)%N ((y - 1) / 4)%N (y / 100)%N ((y - 1) / 100)%N
    (y / 400)%N ((y - 1) / 400)%N (y mod 4)%N (y mod 100)%N (y mod 400)%N.
  intros q4 p4 q100 p100 q400 p400 r4 r100 r400.
  destruct (N.eqb_spec r4 0), (N.eqb_spec r100 0), (N.eqb_spec r400 0);
    cbn [andb orb negb]; intros; lia.
Qed.

Lemma days_before_month_succ (y m : N) :
  (1 <= m <= 11)%N ->
  (days_before_month y (m + 1)
   = days_before_month y m + days_in_month y m)%N.
Proof.
  intros Hm.
  assert (H : m = 1%N \/ m = 2%N \/ m = 3%N \/ m = 4%N \/ m = 5%N
              \/ m = 6%N \/ m = 7%N \/ m = 8%N \/ m = 9%N \/ m = 10%N
              \/ m = 11%N) by lia.
  unfold days_before_month, days_in_month.
  destruct H as [->|[->|[->|[->|[->|[->|[->|[->|[->|[->| ->]]]]]]]]]];
    destruct (is_leap y); reflexivity.
Qed.

Lemma days_in_month_bounds (y m : N) : (28 <= days_in_month y m <= 31)%N.
Proof.
  unfold days_in_month.
  destruct (m =? 2)%N; [destruct (is_leap y); lia|].
  destruct (_ || _); lia.
Qed.

Lemma lex_lt (a b : N) (rest : bool) : (a < b)%N -> lex a b rest = true.
Proof. intros H. unfold lex. compare_N. Qed.

Lemma lex_gt (a b : N) (rest : bool) : (b < a)%N -> lex a b rest = false.
Proof. intros H. unfold lex. compare_N. Qed.

Lemma lex_eq (a : N) (rest : bool) : lex a a rest = rest.
Proof. unfold lex. now rewrite N.eqb_refl. Qed.

Lemma days_before_year_le (y k : N) :
  (1 <= y)%N -> (days_before_year y <= days_before_year (y + k))%N.
Proof.
  intros Hy. induction k as [|k IH] using N.peano_ind.
  - rewrite N.add_0_r. lia.
  - replace (y + N.succ k)%N with (y + k + 1)%N by lia.
    rewrite days_before_year_succ by lia. lia.
Qed.

Lemma year_before (y1 y2 : N) :
  (1 <= y1 < y2)%N ->
  (days_before_year y1 + 365 + (if is_leap y1 then 1 else 0)
   <= days_before_year y2)%N.
Proof.
  intros H. rewrite <- days_before_year_succ by lia.
  replace y2 with (y1 + 1 + (y2 - y1 - 1))%N by lia.
  apply days_before_year_le. lia.
Qed.

Lemma days_before_month_le (y m k : N) :
  (1 <= m)%N -> (m + k <= 12)%N ->
  (days_before_month y m <= days_before_month y (m + k))%N.
Proof.
  intros Hm. induction k as [|k IH] using N.peano_ind; intros Hk.
  - rewrite N.add_0_r. lia.
  - replace (m + N.succ k)%N with (m + k + 1)%N by lia.
    rewrite days_before_month_succ by lia.
    assert (days_before_month y m <= days_before_month y (m + k))%N
      by (apply IH; lia).
    lia.
Qed.

Lemma month_before (y m1 m2 : N) :
  (1 <= m1 < m2)%N -> (m2 <= 12)%N ->
  (days_before_month y m1 + days_in_month y m1 <= days_before_month y m2)%N.
Proof.
  intros H1 H2. rewrite <- days_before_month_succ by lia.
  replace m2 with (m1 + 1 + (m2 - m1 - 1))%N by lia.
  apply days_before_month_le; lia.
Qed.

Lemma year_length (y m : N) :
  (1 <= m <= 12)%N ->
  (days_before_month y m + days_in_month y m
   <= 365 + (if is_leap y then 1 else 0))%N.
Proof.
  intros Hm.
  assert (H12 : (days_before_month y 12 + days_in_month y 12
                 = 365 + (if is_leap y then 1 else 0))%N)
    by (unfold days_before_month, days_in_month; destruct (is_leap y);
        reflexivity).
  destruct (N.eq_dec m 12) as [->|Hne]; [lia|].
  pose proof (month_before y m 12 ltac:(lia) ltac:(lia)).
  pose proof (days_in_month_bounds y 12). lia.
Qed.

(** The ordinal of a date of the calendar grows with its year, month and
    day, in this order. *)
Lemma toordinal_lt (a b : datetime) :
  valid_datetime a -> valid_date a -> valid_datetime b -> valid_date b ->
  ((year a < year b)%N
   \/ (year a = year b /\ (month a < month b)%N)
   \/ (year a = year b /\ month a = month b /\ (day a < day b)%N)) ->
  (toordinal a < toordinal b)%N.
Proof.
  unfold valid_datetime, valid_date, toordinal.
  intros (Hya & Hma & Hda & _) Va (Hyb & Hmb & Hdb & _) Vb H.
  destruct H as [Hy|[[Hy Hm]|(Hy & Hm & Hd)]].
  - pose proof (year_before (year a) (year b) ltac:(lia)).
    pose proof (year_length (year a) (month a) Hma). lia.
  - rewrite Hy in *.
    pose proof (month_before (year b) (month a) (month b) ltac:(lia)
                  ltac:(lia)).
    lia.
  - rewrite Hy, Hm. lia.
Qed.

Lemma datetime_leb_false (a b : datetime) :
  datetime_leb a b = false ->
  (year b < year a)%N
  \/ (year a = year b
      /\ ((month b < month a)%N
          \/ (month a = month b
              /\ ((day b < day a)%N
                  \/ (day a = day b
                      /\ ((hour b < hour a)%N
                          \/ (hour a = hour b
                              /\ ((minute b < minute a)%N
                                  \/ (minute a = minute b
                                      /\ ((second b < second a)%N
                                          \/ (second a = second b
                                              /\ (microsecond b
                                                  < microsecond a)%N
                                             ))))))))))).
Proof.
  unfold datetime_leb, lex.
  repeat match goal with
         | |- context [(?x =? ?y)%N] => destruct (N.eqb_spec x y)
         | |- context [(?x <? ?y)%N] => destruct (N.ltb_spec x y)
         | |- context [(?x <=? ?y)%N] => destruct (N.leb_spec x y)
         end; intros Hcmp; try discriminate Hcmp; lia.
Qed.

Lemma datetime_leb_true (a b : datetime) :
  datetime_leb a b = true ->
  (year a < year b)%N
  \/ (year a = year b
      /\ ((month a < month b)%N
          \/ (month a = month b
              /\ ((day a < day b)%N
                  \/ (day a = day b
                      /\ ((hour a < hour b)%N
                          \/ (hour a = hour b
                              /\ ((minute a < minute b)%N
                                  \/ (minute a = minute b
                                      /\ ((second a < second b)%N
                                          \/ (second a = second b
                                              /\ (microsecond a
                                                  <= microsecond b)%N
                                             ))))))))))).
Proof.
  unfold datetime_leb, lex.
  repeat match goal with
         | |- context [(?x =? ?y)%N] => destruct (N.eqb_spec x y)
         | |- context [(?x <? ?y)%N] => destruct (N.ltb_spec x y)
         | |- context [(?x <=? ?y)%N] => destruct (N.leb_spec x y)
         end; intros Hcmp; try discriminate Hcmp; lia.
Qed.

(** For dates of the calendar, the comparison of the fields is that of the
    readings. *)
Lemma wall_clock_order (a b : datetime) :
  valid_datetime a -> valid_date a -> valid_datetime b -> valid_date b ->
  (datetime_leb a b = true <-> (wall_clock a <= wall_clock b)%Z).
Proof.
  intros Ha Da Hb Db.
  pose proof (toordinal_lt a b Ha Da Hb Db) as Hab.
  pose proof (toordinal_lt b a Hb Db Ha Da) as Hba.
  assert (Heq : year a = year b -> month a = month b -> day a = day b ->
                toordinal a = toordinal b)
    by (unfold toordinal; intros -> -> ->; reflexivity).
  unfold wall_clock.
  destruct Ha as (_ & _ & _ & Hha & Hmia & Hsa & Hua).
  destruct Hb as (_ & _ & _ & Hhb & Hmib & Hsb & Hub).
  revert Hab Hba Heq.
  generalize (toordinal a) as oa, (toordinal b) as ob. intros oa ob Hab Hba Heq.
  destruct (datetime_leb a b) eqn:E.
  - split; [intros _|intros _; reflexivity].
    apply datetime_leb_true in E.
    destruct E as [E|[Ey [E|[Em [E|[Ed E]]]]]];
      [pose proof (Hab (or_introl E))
      |pose proof (Hab (or_intror (or_introl (conj Ey E))))
      |pose proof (Hab (or_intror (or_intror (conj Ey (conj Em E)))))
      |pose proof (Heq Ey Em Ed)]; lia.
  - split; [discriminate|]. intros Hle. exfalso.
    apply datetime_leb_false in E.
    destruct E as [E|[Ey [E|[Em [E|[Ed E]]]]]];
      [pose proof (Hba (or_introl E))
      |pose proof (Hba (or_intror (or_introl (conj (eq_sym Ey) E))))
      |pose proof (Hba (or_intror (or_intror
                                     (conj (eq_sym Ey)
                                        (conj (eq_sym Em) E)))))
      |pose proof (Heq Ey Em Ed)]; lia.
Qed.

(** For dates of the calendar that carry the same offset, the order of the
    stored texts is the order of the instants. *)
Lemma isoformat_instant_order (a b : datetime) :
  valid_datetime a -> valid_date a -> valid_datetime b -> valid_date b ->
  utcoffset a = utcoffset b ->
  (text_leb (isoformat a) (isoformat b) = true
   <-> (instant a <= instant b)%Z).
Proof.
  intros Ha Da Hb Db Hoff.
  rewrite isoformat_order by (try assumption; now right).
  rewrite (wall_clock_order a b) by assumption.
  unfold instant. rewrite Hoff. lia.
Qed.


Lemma load_messages_since_healthy (t : table) (since : datetime) :
  load_messages_since since healthy (at_rest t)
  = (Returned (select_since (isoformat since) t), at_rest t).
Proof. reflexivity. Qed.




(** ** Dictionaries *)

Lemma pystr_eqb_neq (a b : pystr) : pystr_eqb a b = false <-> a <> b.
Proof.
  rewrite <- pystr_eqb_eq. destruct (pystr_eqb a b); split; congruence.
Qed.

Lemma pystr_eqb_sym (a b : pystr) : pystr_eqb a b = pystr_eqb b a.
Proof.
  destruct (pystr_eqb a b) eqn:E; symmetry.
  - apply pystr_eqb_eq in E as ->. apply pystr_eqb_refl.
  - apply pystr_eqb_neq. apply pystr_eqb_neq in E. congruence.
Qed.

Lemma seen_before_In (x : pystr) (seen : list pystr) :
  seen_before x seen = true <-> In x seen.
Proof.
  unfold seen_before. rewrite existsb_exists. split.
  - intros (y & Hy & E). now apply pystr_eqb_eq in E as ->.
  - intros H. exists x. split; [assumption|apply pystr_eqb_refl].
Qed.

Section DictFacts.
Context {V : Type}.
Implicit Types (d : dict V) (k : pystr) (v : V).

Lemma dict_get_set_same k v d : dict_get k (dict_set k v d) = Some v.
Proof.
  induction d as [|[k' v'] d IH]; simpl.
  - now rewrite pystr_eqb_refl.
  - destruct (pystr_eqb k' k) eqn:E; simpl; rewrite E; auto.
Qed.

Lemma dict_get_set_other k k' v d :
  k' <> k -> dict_get k' (dict_set k v d) = dict_get k' d.
Proof.
  intros Hne. induction d as [|[k0 v0] d IH]; simpl.
  - replace (pystr_eqb k k') with false; [reflexivity|].
    symmetry. apply pystr_eqb_neq. congruence.
  - destruct (pystr_eqb k0 k) eqn:E; simpl; [|now rewrite IH].
    apply pystr_eqb_eq in E as ->.
    replace (pystr_eqb k k') with false; [reflexivity|].
    symmetry. apply pystr_eqb_neq. congruence.
Qed.

Lemma dict_get_In_keys k d :
  dict_get k d <> None <-> In k (map fst d).
Proof.
  induction d as [|[k' v'] d IH]; simpl; [tauto|].
  destruct (pystr_eqb k' k) eqn:E.
  - apply pystr_eqb_eq in E as ->. split; [now left|discriminate].
  - rewrite IH. apply pystr_eqb_neq in E. tauto.
Qed.

Lemma dict_set_keys k v d :
  map fst (dict_set k v d)
  = if seen_before k (map fst d) then map fst d else map fst d ++ [k].
Proof.
  unfold seen_before. induction d as [|[k' v'] d IH]; simpl; [reflexivity|].
  rewrite (pystr_eqb_sym k k').
  destruct (pystr_eqb k' k); simpl; [reflexivity|].
  rewrite IH. now destruct (existsb _ _).
Qed.

Lemma dict_set_known_keys k v d :
  In k (map fst d) -> map fst (dict_set k v d) = map fst d.
Proof.
  intros H. rewrite dict_set_keys.
  now rewrite (proj2 (seen_before_In _ _) H).
Qed.

Lemma dict_get_first k v d :
  NoDup (map fst d) -> In (k, v) d -> dict_get k d = Some v.
Proof.
  induction d as [|[k' v'] d IH]; simpl; [tauto|].
  intros Hnd [H|H].
  - injection H as -> ->. now rewrite pystr_eqb_refl.
  - inversion Hnd as [|? ? Hnotin Hnd']; subst.
    destruct (pystr_eqb k' k) eqn:E; [|now apply IH].
    apply pystr_eqb_eq in E as ->. exfalso. apply Hnotin.
    apply in_map_iff. now exists (k, v).
Qed.

Lemma dict_get_In k v d : dict_get k d = Some v -> In (k, v) d.
Proof.
  induction d as [|[k' v'] d IH]; simpl; [discriminate|].
  destruct (pystr_eqb k' k) eqn:E; [|now right; apply IH].
  apply pystr_eqb_eq in E as ->. intros [= ->]. now left.
Qed.

End DictFacts.

Lemma first_occurrences_ext (seen seen' l : list pystr) :
  (forall x, In x seen <-> In x seen') ->
  first_occurrences seen l = first_occurrences seen' l.
Proof.
  revert seen seen'; induction l as [|x l IH]; intros seen seen' H; simpl;
    [reflexivity|].
  assert (E : seen_before x seen = seen_before x seen').
  { destruct (seen_before x seen) eqn:E1; symmetry.
    - apply seen_before_In. apply H. now apply seen_before_In.
    - destruct (seen_before x seen') eqn:E2; [|reflexivity].
      apply seen_before_In, H, seen_before_In in E2. congruence. }
  rewrite E. destruct (seen_before x seen').
  - now apply IH.
  - f_equal. apply IH. intros y. simpl. now rewrite H.
Qed.

Lemma first_occurrences_In (seen l : list pystr) (x : pystr) :
  In x (first_occurrences seen l) <-> In x l /\ ~ In x seen.
Proof.
  revert seen; induction l as [|y l IH]; intros seen; simpl; [tauto|].
  destruct (seen_before y seen) eqn:E.
  - apply seen_before_In in E. rewrite IH. split.
    + tauto.
    + intros [[->|H] Hn]; tauto.
  - assert (Hy : ~ In y seen).
    { intros H. apply seen_before_In in H. congruence. }
    simpl. rewrite IH. simpl. split.
    + intros [->|[H Hn]]; tauto.
    + intros [[->|H] Hn]; [now left|].
      destruct (pystr_eqb y x) eqn:Eyx.
      * apply pystr_eqb_eq in Eyx. now left.
      * apply pystr_eqb_neq in Eyx. right. tauto.
Qed.

Lemma first_occurrences_NoDup (seen l : list pystr) :
  NoDup (first_occurrences seen l).
Proof.
  revert seen; induction l as [|y l IH]; intros seen; simpl; [constructor|].
  destruct (seen_before y seen); [apply IH|].
  constructor; [|apply IH].
  rewrite first_occurrences_In. simpl. tauto.
Qed.

(** ** The loop of [build_digest] *)

Lemma samples_of_get (t : pystr) (d : dict (list pystr)) :
  samples_of t d = match dict_get t d with Some v => v | None => [] end.
Proof.
  unfold samples_of, defaultdict_get. now destruct (dict_get t d).
Qed.

Lemma record_mention_eq (c : dict nat) (d : dict (list pystr))
    (tk p : pystr) :
  record_mention (c, d) (tk, p)
  = (dict_set tk (counter_get tk c + 1) c,
     let d' := match dict_get tk d with
               | Some _ => d
               | None => dict_set tk [] d
               end in
     if (length (samples_of tk d) <? 3) && nonempty p
     then dict_set tk (samples_of tk d ++ [firstn 160 p]) d'
     else d').
Proof.
  unfold record_mention. rewrite samples_of_get. unfold defaultdict_get.
  destruct (dict_get tk d) as [v|]; cbn [length];
    destruct (_ <? 3); destruct p; reflexivity.
Qed.

Lemma record_mention_counts (acc : dict nat * dict (list pystr))
    (tk p t : pystr) :
  counter_get t (fst (record_mention acc (tk, p)))
  = counter_get t (fst acc) + (if pystr_eqb tk t then 1 else 0).
Proof.
  destruct acc as [c d]. rewrite record_mention_eq. cbn [fst].
  unfold counter_get. destruct (pystr_eqb tk t) eqn:E.
  - apply pystr_eqb_eq in E as ->. now rewrite dict_get_set_same.
  - apply pystr_eqb_neq in E. rewrite dict_get_set_other by congruence.
    lia.
Qed.

Lemma record_mention_keys (acc : dict nat * dict (list pystr))
    (tk p : pystr) :
  map fst (fst (record_mention acc (tk, p)))
  = if seen_before tk (map fst (fst acc)) then map fst (fst acc)
    else map fst (fst acc) ++ [tk].
Proof.
  destruct acc as [c d]. rewrite record_mention_eq. cbn [fst].
  apply dict_set_keys.
Qed.

Lemma record_mention_samples (acc : dict nat * dict (list pystr))
    (tk p t : pystr) :
  samples_of t (snd (record_mention acc (tk, p)))
  = if pystr_eqb tk t && (length (samples_of t (snd acc)) <? 3) && nonempty p
    then samples_of t (snd acc) ++ [firstn 160 p]
    else samples_of t (snd acc).
Proof.
  destruct acc as [c d]. rewrite record_mention_eq. cbn [fst snd].
  destruct (pystr_eqb tk t) eqn:E; cbn [andb].
  - apply pystr_eqb_eq in E as ->.
    destruct ((length (samples_of t d) <? 3) && nonempty p).
    + now rewrite samples_of_get, dict_get_set_same.
    + rewrite !samples_of_get. destruct (dict_get t d) eqn:Eg.
      * now rewrite Eg.
      * now rewrite dict_get_set_same.
  - apply pystr_eqb_neq in E.
    assert (Hd : dict_get t match dict_get tk d with
                            | Some _ => d
                            | None => dict_set tk [] d
                            end = dict_get t d).
    { destruct (dict_get tk d); [reflexivity|].
      apply dict_get_set_other. congruence. }
    rewrite (samples_of_get t), (samples_of_get t d).
    destruct (_ && _); [rewrite dict_get_set_other by congruence|];
      now rewrite Hd.
Qed.

Lemma fold_counts (evs : list mention) :
  forall (acc : dict nat * dict (list pystr)) (t : pystr),
    counter_get t (fst (fold_left record_mention evs acc))
    = counter_get t (fst acc) + length (mentions_of t evs).
Proof.
  induction evs as [|[tk p] evs IH]; intros acc t; [simpl; lia|].
  cbn [fold_left]. rewrite IH, record_mention_counts.
  unfold mentions_of. cbn [filter fst].
  destruct (pystr_eqb tk t); cbn [length]; lia.
Qed.

Lemma fold_keys (evs : list mention) :
  forall acc : dict nat * dict (list pystr),
    map fst (fst (fold_left record_mention evs acc))
    = map fst (fst acc)
      ++ first_occurrences (map fst (fst acc)) (map fst evs).
Proof.
  induction evs as [|[tk p] evs IH]; intros acc;
    [simpl; now rewrite app_nil_r|].
  cbn [fold_left map fst first_occurrences].
  rewrite IH, record_mention_keys.
  destruct (seen_before tk (map fst (fst acc))); [reflexivity|].
  rewrite <- app_assoc. cbn [app]. do 2 f_equal.
  apply first_occurrences_ext. intros x. rewrite in_app_iff. simpl. tauto.
Qed.

Lemma fold_samples (evs : list mention) :
  forall (acc : dict nat * dict (list pystr)) (t : pystr),
    samples_of t (snd (fold_left record_mention evs acc))
    = samples_of t (snd acc)
      ++ firstn (3 - length (samples_of t (snd acc))) (new_samples t evs).
Proof.
  induction evs as [|[tk p] evs IH]; intros acc t.
  - simpl. unfold new_samples. simpl. now rewrite firstn_nil, app_nil_r.
  - cbn [fold_left]. rewrite IH, record_mention_samples.
    unfold new_samples, mentions_of. cbn [filter fst].
    destruct (pystr_eqb tk t); cbn [andb]; [|reflexivity].
    cbn [map snd filter].
    destruct (length (samples_of t (snd acc)) <? 3) eqn:E3; cbn [andb].
    + apply Nat.ltb_lt in E3. destruct (nonempty p); [|reflexivity].
      rewrite <- app_assoc, length_app. cbn [map length app].
      replace (3 - length (samples_of t (snd acc)))
        with (S (3 - (length (samples_of t (snd acc)) + 1))) by lia.
      reflexivity.
    + apply Nat.ltb_ge in E3.
      replace (3 - length (samples_of t (snd acc))) with 0 by lia.
      reflexivity.
Qed.

Section Aggregation.
Context {U : UnicodeData}.

Lemma aggregate_mentions (rows : list result_row) :
  aggregate rows = fold_left record_mention (mentions rows) ([], []).
Proof.
  unfold aggregate, mentions.
  generalize (@nil (pystr * nat), @nil (pystr * list pystr)).
  induction rows as [|[[title date] text] rows IH]; intros acc;
    [reflexivity|].
  cbn [fold_left flat_map]. rewrite fold_left_app, IH. f_equal.
  unfold note_row. cbn [snd].
  generalize (extract_tickers (or_empty text)) as tickers.
  intros tickers; revert acc.
  induction tickers as [|tk tickers IHt]; intros acc; [reflexivity|].
  cbn [fold_left map]. rewrite IHt.
  destruct acc as [c d]. reflexivity.
Qed.

(** The counter holds, under each ticker, the number of its mentions. *)
Lemma aggregate_counts (rows : list result_row) (t : pystr) :
  counter_get t (fst (aggregate rows)) = length (mentions_of t (mentions rows)).
Proof. rewrite aggregate_mentions, fold_counts. reflexivity. Qed.

(** Its keys are the tickers in the order of their first mention. *)
Lemma aggregate_keys (rows : list result_row) :
  map fst (fst (aggregate rows))
  = first_occurrences [] (map fst (mentions rows)).
Proof. rewrite aggregate_mentions, fold_keys. reflexivity. Qed.

Lemma aggregate_samples (rows : list result_row) (t : pystr) :
  samples_of t (snd (aggregate rows)) = firstn 3 (previews_for t rows).
Proof. rewrite aggregate_mentions, fold_samples. reflexivity. Qed.

End Aggregation.

(** ** Samples *)

Lemma replace_newlines_clean (s : pystr) : ~ In newline (replace_newlines s).
Proof.
  unfold replace_newlines. rewrite in_map_iff. intros (c & Hc & _).
  destruct (c =? newline)%N eqn:E; [discriminate|].
  apply N.eqb_neq in E. congruence.
Qed.

Lemma In_firstn {A : Type} (n : nat) (l : list A) (x : A) :
  In x (firstn n l) -> In x l.
Proof.
  rewrite <- (firstn_skipn n l) at 2. rewrite in_app_iff. tauto.
Qed.

Section Samples.
Context {U : UnicodeData}.

Lemma In_mentions (rows : list result_row) (ev : mention) :
  In ev (mentions rows) <->
  exists r, In r rows /\ snd ev = preview_of (snd r)
            /\ In (fst ev) (extract_tickers (or_empty (snd r))).
Proof.
  unfold mentions. rewrite in_flat_map. split.
  - intros (r & Hr & H). apply in_map_iff in H as (tk & <- & Htk).
    now exists r.
  - intros (r & Hr & Hp & Htk). exists r. split; [assumption|].
    apply in_map_iff. exists (fst ev). split; [|assumption].
    destruct ev; simpl in *; congruence.
Qed.

Lemma In_previews_for (rows : list result_row) (t s : pystr) :
  In s (previews_for t rows) ->
  exists r p, In r rows /\ p = preview_of (snd r) /\ p <> []
              /\ s = firstn 160 p
              /\ In t (extract_tickers (or_empty (snd r))).
Proof.
  unfold previews_for, new_samples, mentions_of.
  rewrite in_map_iff. intros (p & <- & Hp).
  apply filter_In in Hp as [Hp Hne].
  apply in_map_iff in Hp as (ev & <- & Hev).
  apply filter_In in Hev as [Hev Ht]. apply pystr_eqb_eq in Ht.
  apply In_mentions in Hev as (r & Hr & Hpr & Htk).
  exists r, (snd ev). repeat split; try assumption.
  - intros E. rewrite E in Hne. discriminate.
  - congruence.
Qed.

(** C6, as amended.  For every list of rows read and every ticker, the
    samples recorded are the first three of the previews its mentions offer
    in row order, one per mention; there are at most three, and each is not
    empty, at most 160 characters long and free of newlines. *)
Theorem samples_bounded (rows : list result_row) (ticker : pystr) :
  let samples := samples_of ticker (snd (aggregate rows)) in
  samples = firstn 3 (previews_for ticker rows)
  /\ length samples <= 3
  /\ Forall (fun s => s <> [] /\ length s <= 160 /\ ~ In newline s) samples.
Proof.
  cbv zeta. rewrite aggregate_samples. split; [reflexivity|]. split.
  - rewrite length_firstn. lia.
  - apply Forall_forall. intros s Hs. apply In_firstn in Hs.
    apply In_previews_for in Hs as (r & p & _ & Hp & Hne & -> & _).
    repeat split.
    + destruct p; [congruence|discriminate].
    + rewrite length_firstn. lia.
    + intros H. apply In_firstn in H. subst p.
      now apply replace_newlines_clean in H.
Qed.

End Samples.

(** C6 as stated fails on distinctness: a row that mentions a ticker twice
    gives it the same sample twice. *)
Lemma samples_repeat_a_preview :
  let t := [row_of_message
              (plain_message 7 1 (utc 2024 1 2 3 4 5)
                 (Some (lit "BTC BTC")))] in
  let rows := select_since (isoformat (naive 2024 1 1 0 0 0 0)) t in
  (forall U : UnicodeData,
      samples_of (lit "BTC") (snd (@aggregate U rows))
      = [lit "BTC BTC"; lit "BTC BTC"])
  /\ ~ NoDup [lit "BTC BTC"; lit "BTC BTC"].
Proof.
  split; [intros U; reflexivity|].
  intros H. inversion H as [|? ? Hn _]. apply Hn. now left.
Qed.

(** ** The empty digest *)

Section EmptyDigest.
Context {U : UnicodeData}.

Lemma mentions_nil (rows : list result_row) :
  (forall r, In r rows -> extract_tickers (or_empty (snd r)) = []) ->
  mentions rows = [].
Proof.
  induction rows as [|r rows IH]; intros H; [reflexivity|].
  unfold mentions in *. cbn [flat_map].
  rewrite (H r (or_introl eq_refl)), IH; [reflexivity|].
  intros r' Hr'. apply H. now right.
Qed.

(** C7.  When no row of the window yields a ticker, an empty store
    included, the digest is the fixed text: the header, an empty line, and
    the sentence on the last 24 hours, with nothing on the window. *)
Theorem build_digest_no_mentions (t : table) (since now : datetime) :
  (forall r, In r (select_since (isoformat since) t) ->
             extract_tickers (or_empty (snd r)) = []) ->
  build_digest since now healthy (at_rest t)
  = (Returned
       (lit "Daily Telegram Ticker Digest" ++ [newline; newline]
        ++ lit "No ticker mentions found in the last 24 hours."),
     at_rest t).
Proof.
  intros H. unfold build_digest, bind.
  rewrite load_messages_since_healthy. unfold ret, render.
  rewrite aggregate_mentions, (mentions_nil _ H). reflexivity.
Qed.

End EmptyDigest.

Lemma build_digest_no_mentions_witness :
  let since := naive 2024 1 2 0 0 0 0 in
  let now := naive 2024 1 3 0 0 0 0 in
  let t := [ row_of_message
               (plain_message 7 1 (utc 2024 1 1 9 0 0) (Some (lit "buy BTC")));
             row_of_message
               (plain_message 7 2 (utc 2024 1 2 9 0 0) (Some (lit "the 1 and"))) ]
  in
  @build_digest basic_latin since now healthy (at_rest t)
  = (Returned
       (lit "Daily Telegram Ticker Digest" ++ [newline; newline]
        ++ lit "No ticker mentions found in the last 24 hours."),
     at_rest t)
  /\ @build_digest basic_latin since now healthy (at_rest [])
     = (Returned
          (lit "Daily Telegram Ticker Digest" ++ [newline; newline]
           ++ lit "No ticker mentions found in the last 24 hours."),
        at_rest []).
Proof.
  intros since now t. split.
  - apply (@build_digest_no_mentions basic_latin t since now).
    intros r [<-|[]]. reflexivity.
  - apply (@build_digest_no_mentions basic_latin [] since now).
    intros r [].
Defined.

(** ** Every counted ticker has a sample *)

Lemma In_take_while (p : char -> bool) (s : pystr) (c : char) :
  In c (take_while p s) -> In c s.
Proof.
  induction s as [|x s IH]; simpl; [tauto|].
  destruct (p x); simpl; tauto.
Qed.

Lemma In_runs_from (p : char -> bool) (inside : bool) (s r : pystr)
    (c : char) :
  In r (runs_from p inside s) -> In c r -> In c s.
Proof.
  revert inside; induction s as [|x s IH]; intros inside; [intros []|].
  cbn [runs_from]. destruct (p x) eqn:Ex.
  - destruct inside.
    + intros H Hc. right. eauto.
    + intros [<-|H] Hc.
      * now apply In_take_while in Hc.
      * right. eauto.
  - intros H Hc. right. eauto.
Qed.

Lemma letter_not_space (c : char) :
  is_ascii_upper c = true \/ is_ascii_lower c = true -> isspace c = false.
Proof.
  unfold is_ascii_upper, is_ascii_lower. rewrite !in_range_iff. intros H.
  unfold isspace.
  repeat (apply orb_false_iff; split);
    try (apply N.eqb_neq; lia);
    (destruct (in_range _ _ c) eqn:E; [|reflexivity]);
    apply in_range_iff in E; lia.
Qed.

Lemma In_lstrip (s : pystr) (c : char) :
  In c s -> isspace c = false -> In c (lstrip s).
Proof.
  intros Hin Hc. induction s as [|x s IH]; [destruct Hin|].
  cbn [lstrip]. destruct (isspace x) eqn:Ex; [|exact Hin].
  destruct Hin as [->|Hin]; [congruence|auto].
Qed.

Lemma In_strip (s : pystr) (c : char) :
  In c s -> isspace c = false -> In c (strip s).
Proof.
  intros Hin Hc. unfold strip, rstrip.
  apply in_rev. rewrite rev_involutive.
  apply In_lstrip; [|assumption].
  apply in_rev. rewrite rev_involutive. now apply In_lstrip.
Qed.

Section SampleExists.
Context {U : UnicodeData}.
Hypothesis space_is_caseless : forall c, isspace c = true -> uni_upper c = [c].

(** A character that upper-cases to something with a letter A-Z in it is
    no white space. *)
Lemma cased_not_space (c l : char) :
  In l (upper_char c) -> is_ascii_upper l = true -> isspace c = false.
Proof.
  unfold upper_char. intros Hl Hup.
  destruct (isspace c) eqn:Hsp; [exfalso|reflexivity].
  destruct (is_ascii_lower c) eqn:Elow.
  - rewrite letter_not_space in Hsp by now right. discriminate.
  - destruct (c <? 128)%N eqn:E128.
    + destruct Hl as [<-|[]].
      rewrite letter_not_space in Hsp by now left. discriminate.
    + rewrite (space_is_caseless c Hsp) in Hl. destruct Hl as [<-|[]].
      apply in_range_iff in Hup. apply N.ltb_ge in E128. lia.
Qed.

(** A text with a ticker in it has a character that upper-cases to a
    letter, and so a preview that is not empty. *)
Lemma ticker_text_has_letter (text : pystr) :
  extract_tickers text <> [] ->
  exists c l, In c text /\ In l (upper_char c) /\ is_ascii_upper l = true.
Proof.
  rewrite extract_tickers_runs. intros H.
  destruct (filter _ _) as [|tk tks] eqn:E; [congruence|].
  assert (Htk : In tk (tk :: tks)) by now left.
  rewrite <- E in Htk. apply filter_In in Htk as [Htk _].
  apply filter_In in Htk as [Hrun Hshape].
  unfold ticker_shaped, length_2_to_6 in Hshape.
  apply andb_true_iff in Hshape as [Hall Hlen].
  apply andb_true_iff in Hlen as [H2 _]. apply Nat.leb_le in H2.
  destruct tk as [|l tk]; [simpl in H2; lia|].
  simpl in Hall. apply andb_true_iff in Hall as [Hl _].
  assert (Hin : In l (upper text))
    by (eapply In_runs_from; [exact Hrun|now left]).
  unfold upper in Hin. apply in_flat_map in Hin as (c & Hc & Hlc).
  now exists c, l.
Qed.

Lemma ticker_text_has_preview (text : option pystr) :
  extract_tickers (or_empty text) <> [] -> preview_of text <> [].
Proof.
  intros H. apply ticker_text_has_letter in H as (c & l & Hc & Hl & Hup).
  pose proof (cased_not_space c l Hl Hup) as Hsp.
  pose proof (In_strip _ _ Hc Hsp) as Hin.
  unfold preview_of, replace_newlines.
  destruct (strip (or_empty text)); [destruct Hin|discriminate].
Qed.

Lemma mention_previews_nonempty (rows : list result_row) (t : pystr) :
  filter nonempty (map snd (mentions_of t (mentions rows)))
  = map snd (mentions_of t (mentions rows)).
Proof.
  apply forallb_filter_id. apply forallb_forall. intros p Hp.
  apply in_map_iff in Hp as (ev & <- & Hev).
  apply filter_In in Hev as [Hev _].
  apply In_mentions in Hev as (r & _ & -> & Htk).
  assert (H : preview_of (snd r) <> []).
  { apply ticker_text_has_preview. intros E. rewrite E in Htk. destruct Htk. }
  destruct (preview_of (snd r)); [congruence|reflexivity].
Qed.

(** A text from which a ticker is extracted has a character that
    upper-cases to a letter, so its preview is not empty; and every ticker in
    the counter has at least one sample, the first being the preview, cut to
    160, of its first mention, which heads the lines of its block. *)
Lemma first_sample_of_counted (rows : list result_row) (ticker : pystr)
    (n : nat) :
  In (ticker, n) (fst (aggregate rows)) ->
  (forall r, In r rows -> extract_tickers (or_empty (snd r)) <> [] ->
      (exists c l, In c (or_empty (snd r)) /\ In l (upper_char c)
                   /\ is_ascii_upper l = true)
      /\ preview_of (snd r) <> [])
  /\ exists ev later rest,
       mentions_of ticker (mentions rows) = ev :: later
       /\ firstn 160 (snd ev) <> []
       /\ samples_of ticker (snd (aggregate rows))
          = firstn 160 (snd ev) :: rest
       /\ ticker_block (snd (aggregate rows)) (ticker, n)
          = ticker_line ticker n
            :: sample_line (firstn 160 (snd ev))
            :: map sample_line rest ++ [[]].
Proof.
  intros Hin. split.
  - intros r _ H. split;
      [now apply ticker_text_has_letter|now apply ticker_text_has_preview].
  - assert (Hkey : In ticker (map fst (fst (aggregate rows))))
      by (apply in_map_iff; now exists (ticker, n)).
    rewrite aggregate_keys in Hkey.
    apply first_occurrences_In in Hkey as [Hkey _].
    apply in_map_iff in Hkey as (ev0 & Hf & Hev0).
    destruct (mentions_of ticker (mentions rows)) as [|ev later] eqn:E.
    { exfalso. assert (H : In ev0 (mentions_of ticker (mentions rows))).
      { apply filter_In. split; [assumption|]. now apply pystr_eqb_eq. }
      rewrite E in H. destruct H. }
    assert (Hne : snd ev <> []).
    { pose proof (mention_previews_nonempty rows ticker) as H.
      rewrite E in H. cbn [map filter] in H.
      destruct (snd ev); [|discriminate].
      cbn [nonempty] in H. apply (f_equal (@length pystr)) in H.
      pose proof (filter_length_le nonempty (map snd later)) as Hle.
      cbn [length] in H. lia. }
    pose proof (aggregate_samples rows ticker) as Hs.
    unfold previews_for, new_samples in Hs.
    rewrite mention_previews_nonempty, E in Hs. cbn [map firstn] in Hs.
    exists ev, later, (firstn 2 (map (firstn 160) (map snd later))).
    split; [reflexivity|]. split.
    + destruct (snd ev); [congruence|discriminate].
    + split; [exact Hs|].
      unfold ticker_block. fold (samples_of ticker (snd (aggregate rows))).
      now rewrite Hs.
Qed.

End SampleExists.

(** ** Ranking *)

Lemma insert_by_count_perm (x : pystr * nat) (l : list (pystr * nat)) :
  Permutation (insert_by_count x l) (x :: l).
Proof.
  induction l as [|y l IH]; simpl; [reflexivity|].
  destruct (snd y <=? snd x); [reflexivity|].
  rewrite IH. apply perm_swap.
Qed.

Lemma sort_by_count_perm (l : list (pystr * nat)) :
  Permutation (sort_by_count l) l.
Proof.
  induction l as [|x l IH]; simpl; [reflexivity|].
  rewrite insert_by_count_perm. now constructor.
Qed.

Lemma insert_by_count_sorted (x : pystr * nat) (l : list (pystr * nat)) :
  StronglySorted by_count l -> StronglySorted by_count (insert_by_count x l).
Proof.
  induction 1 as [|y l Hs IH Hy]; simpl.
  - repeat constructor.
  - destruct (snd y <=? snd x) eqn:E.
    + apply Nat.leb_le in E. constructor; [now constructor|].
      constructor; [exact E|].
      eapply Forall_impl; [|exact Hy]. unfold by_count. intros z Hz. lia.
    + apply Nat.leb_gt in E. constructor; [exact IH|].
      eapply Permutation_Forall;
        [apply Permutation_sym, insert_by_count_perm|].
      constructor; [unfold by_count; lia|exact Hy].
Qed.

Lemma sort_by_count_sorted (l : list (pystr * nat)) :
  StronglySorted by_count (sort_by_count l).
Proof.
  induction l as [|x l IH]; simpl; [constructor|].
  now apply insert_by_count_sorted.
Qed.

(** Items of equal count keep the order they had. *)
Lemma insert_by_count_stable (n : nat) (x : pystr * nat)
    (l : list (pystr * nat)) :
  filter (has_count n) (insert_by_count x l) = filter (has_count n) (x :: l).
Proof.
  induction l as [|y l IH]; [reflexivity|].
  cbn [insert_by_count]. destruct (snd y <=? snd x) eqn:E; [reflexivity|].
  apply Nat.leb_gt in E. cbn [filter] in *. rewrite IH.
  unfold has_count.
  destruct (snd x =? n) eqn:Ex; destruct (snd y =? n) eqn:Ey;
    try reflexivity.
  apply Nat.eqb_eq in Ex, Ey. lia.
Qed.

Lemma sort_by_count_stable (n : nat) (l : list (pystr * nat)) :
  filter (has_count n) (sort_by_count l) = filter (has_count n) l.
Proof.
  induction l as [|x l IH]; [reflexivity|].
  cbn [sort_by_count fold_right]. rewrite insert_by_count_stable.
  cbn [filter]. fold (sort_by_count l). now rewrite IH.
Qed.

Lemma StronglySorted_app {A : Type} (R : A -> A -> Prop) (l1 l2 : list A) :
  StronglySorted R (l1 ++ l2) ->
  StronglySorted R l1 /\ StronglySorted R l2
  /\ forall x y, In x l1 -> In y l2 -> R x y.
Proof.
  induction l1 as [|a l1 IH]; simpl; intros H.
  - split; [constructor|]. split; [assumption|intros x y []].
  - inversion H as [|? ? Hs Ha]; subst. destruct (IH Hs) as (Hs1 & Hs2 & Hx).
    rewrite Forall_forall in Ha. split; [|split; [assumption|]].
    + constructor; [assumption|]. apply Forall_forall.
      intros z Hz. apply Ha, in_app_iff. now left.
    + intros x y [<-|Hin] Hy; [|now apply Hx].
      apply Ha, in_app_iff. now right.
Qed.

(** In a list sorted by count, an item of larger count than a listed one
    stands before it. *)
Lemma larger_count_first (sorted ranked rest : list (pystr * nat))
    (x y : pystr * nat) :
  sorted = ranked ++ rest -> StronglySorted by_count sorted ->
  In x sorted -> In y ranked -> snd y < snd x ->
  exists l1 l2 l3, ranked = l1 ++ x :: l2 ++ y :: l3.
Proof.
  intros -> Hs Hx Hy Hlt.
  apply in_split in Hy as (p & q & ->).
  rewrite <- app_assoc in Hs, Hx. cbn [app] in Hs, Hx.
  apply StronglySorted_app in Hs as (_ & Hs & _).
  apply in_app_or in Hx as [Hx|Hx].
  - apply in_split in Hx as (l1 & l2 & ->).
    exists l1, l2, q. now rewrite <- app_assoc.
  - exfalso. destruct Hx as [->|Hx]; [lia|].
    inversion Hs as [|? ? _ Hall]; subst. rewrite Forall_forall in Hall.
    specialize (Hall x Hx). unfold by_count in Hall. lia.
Qed.

(** *** The text of the digest *)

Lemma lstrip_app_nonspace (l1 l2 : pystr) (c : char) :
  isspace c = false -> lstrip (l1 ++ c :: l2) = lstrip l1 ++ c :: l2.
Proof.
  intros Hc. induction l1 as [|x l1 IH]; simpl.
  - now rewrite Hc.
  - destruct (isspace x); [exact IH|reflexivity].
Qed.

Lemma rstrip_app_nonspace (l1 l2 : pystr) (c : char) :
  isspace c = false -> rstrip (l1 ++ c :: l2) = l1 ++ c :: rstrip l2.
Proof.
  intros Hc. unfold rstrip. rewrite rev_app_distr. cbn [rev].
  rewrite <- app_assoc. cbn [app].
  rewrite lstrip_app_nonspace by assumption.
  rewrite rev_app_distr. cbn [rev]. rewrite rev_involutive.
  now rewrite <- app_assoc.
Qed.

Lemma join_lines_cons (l : pystr) (rest : list pystr) :
  join_lines (l :: rest) = l ++ after_line rest.
Proof. destruct rest; simpl; [now rewrite app_nil_r|reflexivity]. Qed.

(** The text up to a line starts with the first line, and the text after
    it is that of the lines that follow. *)
Lemma join_lines_split (pre post : list pystr) (x : pystr) :
  exists j1, join_lines (pre ++ x :: post) = j1 ++ x ++ after_line post
             /\ forall l pre', pre = l :: pre' -> exists j1', j1 = l ++ j1'.
Proof.
  induction pre as [|l pre IH].
  - exists []. split; [apply join_lines_cons|discriminate].
  - destruct IH as (j1 & E & _). cbn [app]. rewrite join_lines_cons.
    destruct (pre ++ x :: post) as [|y ys] eqn:Epre; [now destruct pre|].
    unfold after_line. rewrite E. exists (l ++ newline :: j1). split.
    + now rewrite <- app_assoc.
    + intros l0 pre' [= <- <-]. now exists (newline :: j1).
Qed.

(** Stripping a text that starts with other than white space leaves two of
    its lines in it, in their order, when the second ends with other than
    white space. *)
Lemma strip_keeps_lines (first : pystr) (pre mid post : list pystr)
    (la lb' : pystr) (c0 c : char) :
  isspace c0 = false -> isspace c = false ->
  exists x y z,
    strip (join_lines (((c0 :: first) :: pre) ++ la :: mid
                       ++ (lb' ++ [c]) :: post))
    = x ++ la ++ y ++ (lb' ++ [c]) ++ z.
Proof.
  intros H0 Hc.
  destruct (join_lines_split ((c0 :: first) :: pre)
              (mid ++ (lb' ++ [c]) :: post) la) as (j1 & E & Hj1).
  destruct (Hj1 _ _ eq_refl) as (j1' & ->). clear Hj1.
  destruct (join_lines_split mid post (lb' ++ [c])) as (k1 & Ek & _).
  assert (Hafter : after_line (mid ++ (lb' ++ [c]) :: post)
                   = newline :: k1 ++ (lb' ++ [c]) ++ after_line post).
  { rewrite <- Ek. now destruct mid. }
  exists ((c0 :: first) ++ j1'), (newline :: k1), (rstrip (after_line post)).
  rewrite Hafter in E. clear Ek Hafter.
  etransitivity; [apply (f_equal strip); exact E|]. clear E.
  unfold strip. cbn [app lstrip]. rewrite H0.
  replace (c0 :: (first ++ j1') ++ la ++ newline :: k1 ++ (lb' ++ [c])
             ++ after_line post)
    with ((c0 :: (first ++ j1') ++ la ++ newline :: k1 ++ lb')
            ++ c :: after_line post)
    by (repeat (rewrite <- app_assoc || rewrite <- app_comm_cons);
        reflexivity).
  rewrite rstrip_app_nonspace by assumption.
  repeat (rewrite <- app_assoc || rewrite <- app_comm_cons). reflexivity.
Qed.

Lemma ticker_line_end (ticker : pystr) (n : nat) :
  ticker_line ticker n
  = (lit "$" ++ ticker ++ lit " " ++ [em_dash] ++ lit " "
     ++ decimal (N.of_nat n) ++ lit " mention") ++ [115%N].
Proof.
  unfold ticker_line. repeat rewrite <- app_assoc. reflexivity.
Qed.

Section Ranking.
Context {U : UnicodeData}.

Lemma aggregate_keys_NoDup (rows : list result_row) :
  NoDup (map fst (fst (aggregate rows))).
Proof. rewrite aggregate_keys. apply first_occurrences_NoDup. Qed.

Lemma aggregate_count_In (rows : list result_row) (t : pystr) (n : nat) :
  In (t, n) (fst (aggregate rows)) ->
  n = length (mentions_of t (mentions rows)) /\ 1 <= n.
Proof.
  intros Hin.
  assert (Hn : n = length (mentions_of t (mentions rows))).
  { rewrite <- aggregate_counts. unfold counter_get.
    now rewrite (dict_get_first t n _ (aggregate_keys_NoDup rows) Hin). }
  split; [exact Hn|].
  assert (Hkey : In t (map fst (fst (aggregate rows))))
    by (apply in_map_iff; now exists (t, n)).
  rewrite aggregate_keys in Hkey.
  apply first_occurrences_In in Hkey as [Hkey _].
  apply in_map_iff in Hkey as (ev & Hf & Hev).
  assert (H : In ev (mentions_of t (mentions rows))).
  { apply filter_In. split; [assumption|]. now apply pystr_eqb_eq. }
  rewrite Hn. destruct (mentions_of t (mentions rows)); [destruct H|].
  simpl. lia.
Qed.

Lemma aggregate_nonempty (rows : list result_row) :
  (exists r, In r rows /\ extract_tickers (or_empty (snd r)) <> []) ->
  fst (aggregate rows) <> [].
Proof.
  intros (r & Hr & Hne) E.
  destruct (extract_tickers (or_empty (snd r))) as [|tk tks] eqn:Etk;
    [congruence|].
  assert (Hev : In (tk, preview_of (snd r)) (mentions rows)).
  { apply In_mentions. exists r. cbn [fst snd]. rewrite Etk.
    repeat split; [assumption|now left]. }
  pose proof (aggregate_keys rows) as Hk. rewrite E in Hk.
  destruct (mentions rows) as [|ev evs]; [destruct Hev|].
  discriminate Hk.
Qed.

Lemma digest_lines_eq (since now : datetime) (rows : list result_row) :
  digest_lines since now (aggregate rows)
  = [header; window_line since now; []]
    ++ flat_map (ticker_block (snd (aggregate rows)))
         (most_common 15 (fst (aggregate rows))).
Proof. unfold digest_lines. now destruct (aggregate rows). Qed.

Lemma build_digest_healthy (t : table) (since now : datetime) :
  build_digest since now healthy (at_rest t)
  = (Returned (render since now (select_since (isoformat since) t)),
     at_rest t).
Proof. reflexivity. Qed.

(** C5.  When some row of the window yields a ticker, the digest is the
    header, the window line, an empty line and one block for each of at most
    15 tickers, stripped.  The counter holds each ticker with the number of
    its mentions, in the order of first mention; the tickers rendered are
    those of largest count, by count descending, and those of equal count
    stand in the order their counters were created.  A ticker counted 5
    times has its line, [$T - 5 mentions] with a long dash, before that of a
    rendered ticker counted 3 times, in the list of lines and in the text
    returned. *)
Theorem build_digest_ranking (t : table) (since now : datetime) :
  let rows := select_since (isoformat since) t in
  let counts := fst (aggregate rows) in
  let ranked := most_common 15 counts in
  (exists r, In r rows /\ extract_tickers (or_empty (snd r)) <> []) ->
  build_digest since now healthy (at_rest t)
  = (Returned
       (strip
          (join_lines
             ([header; window_line since now; []]
              ++ flat_map (ticker_block (snd (aggregate rows))) ranked))),
     at_rest t)
  /\ 1 <= length ranked <= 15
  /\ (forall ticker n, In (ticker, n) counts ->
        n = length (mentions_of ticker (mentions rows)) /\ 1 <= n)
  /\ map fst counts = first_occurrences [] (map fst (mentions rows))
  /\ StronglySorted by_count ranked
  /\ (exists rest,
         Permutation counts (ranked ++ rest)
         /\ (forall x y, In x ranked -> In y rest -> snd y <= snd x)
         /\ (rest <> [] -> length ranked = 15))
  /\ (length counts <= 15 -> Permutation counts ranked)
  /\ (forall n, exists rest,
         filter (has_count n) counts = filter (has_count n) ranked ++ rest)
  /\ (forall a b, In (a, 5) counts -> In (b, 3) ranked ->
        (exists pre mid post,
            digest_lines since now (aggregate rows)
            = pre ++ ticker_line a 5 :: mid ++ ticker_line b 3 :: post)
        /\ (exists x y z,
               fst (build_digest since now healthy (at_rest t))
               = Returned
                   (x ++ ticker_line a 5 ++ y ++ ticker_line b 3 ++ z)))
  /\ (forall a,
        ticker_line a 5
        = lit "$" ++ a ++ lit " " ++ [em_dash] ++ lit " 5 mentions"
        /\ ticker_line a 3
           = lit "$" ++ a ++ lit " " ++ [em_dash] ++ lit " 3 mentions").
Proof.
  intros rows counts ranked Hsome.
  pose proof (aggregate_nonempty rows Hsome) as Hne. fold counts in Hne.
  set (sorted := sort_by_count counts).
  set (rest := skipn 15 sorted).
  assert (Hsplit : sorted = ranked ++ rest)
    by (symmetry; apply firstn_skipn).
  pose proof (sort_by_count_perm counts) as Hperm. fold sorted in Hperm.
  pose proof (sort_by_count_sorted counts) as Hsorted. fold sorted in Hsorted.
  assert (Hlen : length ranked = Nat.min 15 (length counts)).
  { unfold ranked, most_common. fold sorted.
    now rewrite length_firstn, (Permutation_length Hperm). }
  assert (Hrest : length rest = length counts - 15).
  { unfold rest. now rewrite length_skipn, (Permutation_length Hperm). }
  rewrite Hsplit in Hsorted.
  destruct (StronglySorted_app _ _ _ Hsorted) as (Hs1 & _ & Hcross).
  assert (Hout : build_digest since now healthy (at_rest t)
                 = (Returned
                      (strip
                         (join_lines
                            ([header; window_line since now; []]
                             ++ flat_map (ticker_block (snd (aggregate rows)))
                                  ranked))),
                    at_rest t)).
  { rewrite build_digest_healthy. unfold render. fold rows.
    rewrite digest_lines_eq. fold counts.
    destruct counts; [congruence|reflexivity]. }
  split; [exact Hout|].
  split.
  { destruct counts; [congruence|]. cbn [length] in Hlen. lia. }
  split; [intros ticker n; apply aggregate_count_In|].
  split; [apply aggregate_keys|].
  split; [exact Hs1|].
  split.
  { exists rest. split; [|split].
    - rewrite <- Hsplit. now apply Permutation_sym.
    - intros x y Hx Hy. now apply (Hcross x y).
    - intros Hr. destruct rest; [congruence|]. simpl in Hrest. lia. }
  split.
  { intros Hle. assert (rest = []) as E
      by (destruct rest; [reflexivity|simpl in Hrest; lia]).
    rewrite E, app_nil_r in Hsplit. rewrite <- Hsplit.
    now apply Permutation_sym. }
  split.
  { intros n. exists (filter (has_count n) rest).
    rewrite <- filter_app, <- Hsplit. unfold sorted.
    now rewrite sort_by_count_stable. }
  split; [|intros a; split; reflexivity].
  intros a b Ha Hb.
  destruct (larger_count_first sorted ranked rest (a, 5) (b, 3))
    as (l1 & l2 & l3 & E); try assumption.
  - rewrite Hsplit. exact Hsorted.
  - apply (Permutation_in _ (Permutation_sym Hperm)). exact Ha.
  - simpl. lia.
  - rewrite Hout, digest_lines_eq. fold rows counts ranked. rewrite E.
    set (block := ticker_block (snd (aggregate rows))).
    set (bullets x := map sample_line
                        (fst (defaultdict_get x (snd (aggregate rows))))).
    set (pre := [window_line since now; []] ++ flat_map block l1).
    set (mid := (bullets a ++ [[]]) ++ flat_map block l2).
    set (post := (bullets b ++ [[]]) ++ flat_map block l3).
    assert (Hlines : [header; window_line since now; []]
                     ++ flat_map block (l1 ++ (a, 5) :: l2 ++ (b, 3) :: l3)
                     = (header :: pre) ++ ticker_line a 5
                       :: mid ++ ticker_line b 3 :: post).
    { unfold pre, mid, post, block, bullets.
      rewrite !flat_map_app. cbn [flat_map ticker_block].
      rewrite !flat_map_app. cbn [flat_map ticker_block].
      repeat (rewrite <- app_assoc || rewrite <- app_comm_cons).
      reflexivity. }
    rewrite Hlines. split; [now exists (header :: pre), mid, post|].
    cbn [fst]. rewrite (ticker_line_end b 3).
    destruct (strip_keeps_lines (lit "aily Telegram Ticker Digest")
                pre mid post (ticker_line a 5)
                (lit "$" ++ b ++ lit " " ++ [em_dash] ++ lit " "
                 ++ decimal (N.of_nat 3) ++ lit " mention")
                68%N 115%N eq_refl eq_refl) as (x & y & z & Hs).
    exists x, y, z. f_equal. exact Hs.
Qed.

End Ranking.

Lemma build_digest_ranking_witness :
  let since := naive 2024 1 2 0 0 0 0 in
  let now := naive 2024 1 3 0 0 0 0 in
  let t := [ row_of_message
               (plain_message 7 1 (utc 2024 1 2 9 0 0)
                  (Some (lit "BTC BTC and ETH")));
             row_of_message
               (plain_message 7 2 (utc 2024 1 2 9 1 0) (Some (lit "eth btc")));
             row_of_message
               (plain_message 7 3 (utc 2024 1 2 9 2 0)
                  (Some (lit "$BTC #ETH $btc"))) ] in
  exists x y z,
    fst (@build_digest basic_latin since now healthy (at_rest t))
    = Returned
        (x ++ (lit "$BTC " ++ [em_dash] ++ lit " 5 mentions")
           ++ y ++ (lit "$ETH " ++ [em_dash] ++ lit " 3 mentions") ++ z).
Proof.
  intros since now t.
  assert (Hsome : exists r, In r (select_since (isoformat since) t)
                            /\ @extract_tickers basic_latin (or_empty (snd r))
                               <> []).
  { eexists. split; [vm_compute; left; reflexivity|].
    vm_compute. discriminate. }
  destruct (@build_digest_ranking basic_latin t since now Hsome)
    as (_ & _ & _ & _ & _ & _ & _ & _ & Horder & _).
  apply (Horder (lit "BTC") (lit "ETH")).
  - vm_compute. left. reflexivity.
  - vm_compute. right. left. reflexivity.
Defined.

(** ** Further properties *)

Section MoreOnExtraction.
Context {U : UnicodeData}.

(** X1.  Every token the extractor returns is made of 2 to 6 letters A-Z
    and is not a stopword. *)
Theorem extract_tickers_shape (text t : pystr) :
  In t (extract_tickers text) ->
  forallb is_ascii_upper t = true /\ 2 <= length t <= 6
  /\ in_stopwords t = false.
Proof.
  rewrite extract_tickers_runs. intros H.
  apply filter_In in H as [H Hstop]. apply filter_In in H as [_ Hshape].
  unfold ticker_shaped, length_2_to_6 in Hshape.
  apply andb_true_iff in Hshape as [Hall Hlen].
  apply andb_true_iff in Hlen as [H2 H6]. apply Nat.leb_le in H2, H6.
  apply negb_true_iff in Hstop. auto.
Qed.

(** Of "THE GROUP likes BTC" the extractor returns LIKES and BTC: the
    stopwords THE and GROUP are left out, the word LIKES is not one. *)
Example extract_tickers_the_group :
  extract_tickers (lit "THE GROUP likes BTC") = [lit "LIKES"; lit "BTC"].
Proof. reflexivity. Qed.

(** Of "A BITCOINX" the extractor returns nothing: one letter is too
    few and eight are too many. *)
Example extract_tickers_bounds :
  extract_tickers (lit "A BITCOINX") = [].
Proof. reflexivity. Qed.

(** X4.  [build_digest] only reads: whatever fails, the database is left
    as it was; and when connecting, the query or the fetch fails, the call
    raises instead of returning a digest. *)
Theorem build_digest_reads_only (since now : datetime)
    (fails : db_op -> bool) (t : table) :
  snd (build_digest since now fails (at_rest t)) = at_rest t
  /\ (fails op_connect = true \/ fails op_execute = true
      \/ fails op_fetchall = true ->
      exists op, fails op = true
                 /\ fst (build_digest since now fails (at_rest t))
                    = Raised (sqlite3_Error op)).
Proof.
  unfold build_digest, load_messages_since, with_connection,
    execute_select_since, fetchall, bind, call, ret.
  destruct (fails op_connect) eqn:E1;
    [split; [reflexivity|intros _; now exists op_connect]|].
  simpl. destruct (fails op_execute) eqn:E2;
    [split; [reflexivity|intros _; now exists op_execute]|].
  simpl. destruct (fails op_fetchall) eqn:E3;
    [split; [reflexivity|intros _; now exists op_fetchall]|].
  split; [reflexivity|]. intros [H|[H|H]]; discriminate.
Qed.

End MoreOnExtraction.

Lemma extract_tickers_shape_witness :
  In (lit "DOGE") (@extract_tickers basic_latin (lit "much $doge, wow"))
  /\ forallb is_ascii_upper (lit "DOGE") = true
  /\ 2 <= length (lit "DOGE") <= 6
  /\ in_stopwords (lit "DOGE") = false.
Proof.
  assert (H : In (lit "DOGE")
                (@extract_tickers basic_latin (lit "much $doge, wow")))
    by (vm_compute; right; left; reflexivity).
  split; [exact H|].
  exact (@extract_tickers_shape basic_latin (lit "much $doge, wow")
           (lit "DOGE") H).
Defined.

Lemma build_digest_reads_only_witness :
  exists op,
    fst (@build_digest basic_latin (naive 2024 1 2 0 0 0 0)
           (naive 2024 1 3 0 0 0 0)
           (fun op => match op with op_fetchall => true | _ => false end)
           (at_rest []))
    = Raised (sqlite3_Error op).
Proof.
  destruct (proj2 (@build_digest_reads_only basic_latin
                     (naive 2024 1 2 0 0 0 0) (naive 2024 1 3 0 0 0 0)
                     (fun op => match op with
                                | op_fetchall => true
                                | _ => false
                                end) [])
              (or_intror (or_intror eq_refl))) as (op & _ & H).
  now exists op.
Defined.

Lemma store_each_at_rest (events : list (Message * (db_op -> bool))) :
  forall t : table,
    unique_keys t ->
    exists t', store_each events (at_rest t) = at_rest t' /\ unique_keys t'.
Proof.
  induction events as [|[m fails] events IH]; intros t Hu.
  - now exists t.
  - cbn [store_each].
    destruct (store_message_table m fails t) as [-> | ->];
      apply IH; [assumption|now apply insert_or_ignore_unique].
Qed.

(** X5.  From the table [init_db] creates, any run of the handler, failures
    included, leaves a table in which no two rows share (chat_id,
    message_id), and no transaction open. *)
Theorem store_each_unique (events : list (Message * (db_op -> bool))) :
  unique_keys (committed (store_each events (at_rest (init_db None))))
  /\ pending (store_each events (at_rest (init_db None))) = None.
Proof.
  destruct (store_each_at_rest events (init_db None)) as (t' & -> & Hu).
  - constructor.
  - now split.
Qed.

(** X6.  Read your writes: once a message with a text and a new pair has
    been stored, a read from a [since] that carries the offset of the
    message's date and is not after it in time, both dates of the calendar,
    returns its row. *)
Theorem stored_message_is_listed (t : table) (m : Message)
    (since : datetime) :
  falsy (msg_message m) = false ->
  ~ In (msg_chat_id m, msg_id m) (map key_of_row t) ->
  valid_datetime since -> valid_date since ->
  valid_datetime (msg_date m) -> valid_date (msg_date m) ->
  utcoffset since = utcoffset (msg_date m) ->
  (instant since <= instant (msg_date m))%Z ->
  exists rows,
    load_messages_since since healthy
      (snd (store_message m healthy (at_rest t)))
    = (Returned rows, at_rest (t ++ [row_of_message m]))
    /\ In (project (row_of_message m)) rows.
Proof.
  intros Htext Hnew Vs Ds Vm Dm Hoff Hle.
  assert (Hdate : text_leb (isoformat since) (isoformat (msg_date m)) = true)
    by now apply isoformat_instant_order.
  rewrite store_message_healthy, Htext. cbn [snd].
  rewrite insert_or_ignore_new by assumption.
  rewrite load_messages_since_healthy. eexists. split; [reflexivity|].
  unfold select_since. apply in_map.
  apply (Permutation_in _ (Permutation_sym (order_by_date_perm _))).
  apply filter_In. split; [|exact Hdate].
  apply in_app_iff. right. now left.
Qed.

Lemma stored_message_is_listed_witness :
  let m := plain_message 7 1 (utc 2024 1 2 9 0 0) (Some (lit "buy BTC")) in
  exists rows,
    load_messages_since (utc 2024 1 1 9 0 0) healthy
      (snd (store_message m healthy (at_rest [])))
    = (Returned rows, at_rest [row_of_message m])
    /\ In (project (row_of_message m)) rows.
Proof.
  intros m.
  apply (stored_message_is_listed [] m (utc 2024 1 1 9 0 0)).
  - reflexivity.
  - intros [].
  - unfold valid_datetime. simpl. lia.
  - unfold valid_date. vm_compute. discriminate.
  - unfold valid_datetime. simpl. lia.
  - unfold valid_date. vm_compute. discriminate.
  - reflexivity.
  - vm_compute. discriminate.
Defined.

(** X7.  For dates within the interpreter's ranges that carry the same
    offset, or when the first carries none, the texts [isoformat] writes
    compare as the calendar fields do: the stored form of a timestamp is
    sortable. *)
Theorem isoformat_sortable (a b : datetime) :
  valid_datetime a -> valid_datetime b ->
  utcoffset a = None \/ utcoffset a = utcoffset b ->
  text_leb (isoformat a) (isoformat b) = datetime_leb a b.
Proof. exact (isoformat_order a b). Qed.

Lemma isoformat_sortable_witness :
  text_leb (isoformat (naive 2024 1 2 9 0 0 500000))
    (isoformat (utc 2024 1 2 9 0 0))
  = false.
Proof.
  rewrite isoformat_sortable.
  - reflexivity.
  - unfold valid_datetime. simpl. lia.
  - unfold valid_datetime. simpl. lia.
  - left. reflexivity.
Defined.

(** ** Separators *)

Lemma take_while_app_stop (p : char -> bool) (x y : pystr) (c : char) :
  p c = false -> take_while p (x ++ c :: y) = take_while p x.
Proof.
  intros Hc. induction x as [|d x IH]; simpl.
  - now rewrite Hc.
  - destruct (p d); [now rewrite IH|reflexivity].
Qed.

Lemma runs_from_app_stop (p : char -> bool) (x y : pystr) (c : char) :
  p c = false ->
  forall inside,
    runs_from p inside (x ++ c :: y)
    = runs_from p inside x ++ runs_from p false y.
Proof.
  intros Hc. induction x as [|d x IH]; intros inside.
  - simpl. now rewrite Hc.
  - cbn [app runs_from]. destruct (p d) eqn:Ed; [|apply IH].
    destruct inside; [apply IH|].
    rewrite IH. cbn [app]. f_equal.
    change (d :: x ++ c :: y) with ((d :: x) ++ c :: y).
    now apply take_while_app_stop.
Qed.

Section Separators.
Context {U : UnicodeData}.

(** X2.  A character below 128 that is no letter, digit or underscore
    (a space, a line break, punctuation, [$] and [#] too) separates: the
    tickers of a text are those of the part before it followed by those of
    the part after it.  No token spans such a character. *)
Theorem extract_tickers_separator (a b : pystr) (c : char) :
  is_ascii c = true -> is_word c = false ->
  extract_tickers (a ++ c :: b) = extract_tickers a ++ extract_tickers b.
Proof.
  intros Hascii Hword. rewrite !extract_tickers_runs.
  assert (Hup : upper_char c = [c]).
  { unfold upper_char. unfold is_ascii in Hascii. rewrite Hascii.
    destruct (is_ascii_lower c) eqn:El; [|reflexivity].
    unfold is_word, isalnum in Hword. rewrite Hascii, El in Hword.
    now rewrite orb_true_r in Hword. }
  unfold upper. rewrite flat_map_app. cbn [flat_map]. rewrite Hup.
  cbn [app]. rewrite runs_from_app_stop by assumption.
  now rewrite !filter_app.
Qed.

End Separators.

Lemma extract_tickers_separator_witness :
  @extract_tickers basic_latin (lit "long $SOL" ++ 10%N :: lit "short #ada")
  = [lit "LONG"; lit "SOL"; lit "SHORT"; lit "ADA"].
Proof.
  rewrite extract_tickers_separator; reflexivity.
Defined.

(** ** The text of every digest *)

Lemma strip_keeps_head (h rest : pystr) (c0 c : char) :
  isspace c0 = false -> isspace c = false ->
  strip ((c0 :: h) ++ c :: rest) = (c0 :: h) ++ c :: rstrip rest.
Proof.
  intros H0 Hc. unfold strip. cbn [app lstrip]. rewrite H0.
  change (c0 :: h ++ c :: rest) with ((c0 :: h) ++ c :: rest).
  now apply rstrip_app_nonspace.
Qed.

Section EveryDigest.
Context {U : UnicodeData}.

Lemma render_header (since now : datetime) (rows : list result_row) :
  exists rest, render since now rows = header ++ newline :: rest.
Proof.
  unfold render. destruct (fst (aggregate rows)) eqn:E.
  - eexists. reflexivity.
  - rewrite digest_lines_eq. set (blocks := flat_map _ _).
    set (w := strftime_minutes since ++ lit " - " ++ strftime_minutes now).
    assert (Ej : join_lines ([header; window_line since now; []] ++ blocks)
                 = (header ++ [newline])
                   ++ 87%N :: (lit "indow: " ++ w) ++ after_line ([] :: blocks))
      by reflexivity.
    rewrite Ej.
    change (header ++ [newline])
      with (68%N :: lit "aily Telegram Ticker Digest" ++ [newline]).
    rewrite strip_keeps_head by reflexivity.
    eexists. cbn [app]. reflexivity.
Qed.

(** X8.  Every digest [build_digest] returns begins with the header line
    followed by a line break, whatever the rows of the window are: it is
    never the empty text. *)
Theorem build_digest_header (t : table) (since now : datetime) :
  exists rest,
    build_digest since now healthy (at_rest t)
    = (Returned (header ++ newline :: rest), at_rest t).
Proof.
  rewrite build_digest_healthy.
  destruct (render_header since now (select_since (isoformat since) t))
    as (rest & ->).
  now exists rest.
Qed.

End EveryDigest.

(** ** Counting *)

Lemma total_count_set (k : pystr) (c : dict nat) :
  total_count (dict_set k (counter_get k c + 1) c) = total_count c + 1.
Proof.
  unfold total_count, counter_get.
  induction c as [|[k' v] c IH]; [reflexivity|].
  cbn [dict_set dict_get]. destruct (pystr_eqb k' k).
  - cbn [map snd list_sum fold_right]. lia.
  - cbn [map snd list_sum fold_right]. fold (list_sum (map snd c)).
    change (fold_right Nat.add 0 ?l) with (list_sum l). rewrite IH. lia.
Qed.

Lemma fold_total (evs : list mention) :
  forall acc : dict nat * dict (list pystr),
    total_count (fst (fold_left record_mention evs acc))
    = total_count (fst acc) + length evs.
Proof.
  induction evs as [|[tk p] evs IH]; intros [c d]; [simpl; lia|].
  cbn [fold_left]. rewrite IH, record_mention_eq. cbn [fst length].
  rewrite total_count_set. lia.
Qed.

Section CountingTheorems.
Context {U : UnicodeData}.

Lemma length_mentions (rows : list result_row) :
  length (mentions rows) = list_sum (map tickers_in rows).
Proof.
  unfold mentions. induction rows as [|r rows IH]; [reflexivity|].
  cbn [flat_map map list_sum fold_right]. rewrite length_app, length_map.
  unfold tickers_in at 1. f_equal. exact IH.
Qed.

(** X9.  No mention is lost or counted twice: the counts the digest is made
    from add up to the number of tokens the extractor returns over the rows
    of the window. *)
Theorem aggregate_total (rows : list result_row) :
  total_count (fst (aggregate rows)) = list_sum (map tickers_in rows).
Proof.
  rewrite aggregate_mentions, fold_total, length_mentions. reflexivity.
Qed.

End CountingTheorems.

(** ** Narrowing the window *)

Lemma insert_by_date_first (r : row) (l : list row) :
  Forall (rows_by_date r) l -> insert_by_date r l = r :: l.
Proof.
  intros H. destruct l as [|x l]; [reflexivity|].
  simpl. inversion H as [|? ? Hx _]. unfold rows_by_date in Hx.
  now rewrite Hx.
Qed.

Lemma filter_insert_by_date (p : row -> bool) (r : row) (l : list row) :
  StronglySorted rows_by_date l ->
  filter p (insert_by_date r l)
  = if p r then insert_by_date r (filter p l) else filter p l.
Proof.
  induction 1 as [|x l Hs IH Hx]; [simpl; now destruct (p r)|].
  cbn [insert_by_date].
  destruct (text_leb (message_date r) (message_date x)) eqn:E.
  - cbn [filter]. destruct (p r) eqn:Er; [|reflexivity].
    symmetry. apply insert_by_date_first.
    assert (Hall : Forall (rows_by_date r) (x :: l)).
    { constructor; [exact E|]. eapply Forall_impl; [|exact Hx].
      intros y Hy. unfold rows_by_date in *.
      now apply (text_leb_trans _ (message_date x)). }
    apply Forall_forall. intros y Hy.
    apply (proj1 (Forall_forall _ _) Hall).
    change (In y (filter p (x :: l))) in Hy.
    now apply filter_In in Hy.
  - cbn [filter]. rewrite IH.
    destruct (p x), (p r); cbn [insert_by_date]; rewrite ?E; reflexivity.
Qed.

Lemma filter_order_by_date (p : row -> bool) (l : list row) :
  filter p (order_by_date l) = order_by_date (filter p l).
Proof.
  induction l as [|x l IH]; [reflexivity|].
  cbn [order_by_date fold_right filter].
  rewrite filter_insert_by_date by apply order_by_date_sorted.
  fold (order_by_date l). rewrite IH.
  now destruct (p x).
Qed.

Lemma filter_filter_sub {A : Type} (p q : A -> bool) (l : list A) :
  (forall x, q x = true -> p x = true) ->
  filter q (filter p l) = filter q l.
Proof.
  intros H. induction l as [|x l IH]; [reflexivity|].
  cbn [filter]. destruct (p x) eqn:Ep; cbn [filter]; rewrite IH.
  - reflexivity.
  - destruct (q x) eqn:Eq; [|reflexivity]. apply H in Eq. congruence.
Qed.

Lemma filter_map_project (q : pystr -> bool) (l : list row) :
  filter (fun r => q (date_of r)) (map project l)
  = map project (filter (fun r => q (message_date r)) l).
Proof.
  induction l as [|x l IH]; [reflexivity|].
  cbn [map filter]. change (date_of (project x)) with (message_date x).
  destruct (q (message_date x)); cbn [map]; now rewrite IH.
Qed.

(** X10.  Narrowing the window only removes rows: for a later [since], the
    read returns what the read for the earlier one returns without the rows
    stamped before the later one, the others in the same order. *)
Theorem load_messages_since_narrowing (t : table) (since later : datetime) :
  text_leb (isoformat since) (isoformat later) = true ->
  exists rows,
    load_messages_since since healthy (at_rest t) = (Returned rows, at_rest t)
    /\ load_messages_since later healthy (at_rest t)
       = (Returned
            (filter (fun r => text_leb (isoformat later) (date_of r)) rows),
          at_rest t).
Proof.
  intros Hle. rewrite !load_messages_since_healthy.
  eexists. split; [reflexivity|]. f_equal. f_equal.
  unfold select_since. fold project.
  change (map project ?l) with (map project l).
  rewrite (filter_map_project (text_leb (isoformat later))).
  rewrite filter_order_by_date. do 2 f_equal.
  symmetry. apply filter_filter_sub.
  intros r Hr. now apply (text_leb_trans _ (isoformat later)).
Qed.

Lemma load_messages_since_narrowing_witness :
  let t := [row_of_message
              (plain_message 7 1 (utc 2024 1 2 9 0 0) (Some (lit "buy BTC")));
            row_of_message
              (plain_message 7 2 (utc 2024 1 1 9 0 0) (Some (lit "sell ETH")))]
  in
  exists rows,
    load_messages_since (naive 2024 1 1 0 0 0 0) healthy (at_rest t)
    = (Returned rows, at_rest t)
    /\ load_messages_since (naive 2024 1 2 0 0 0 0) healthy (at_rest t)
       = (Returned
            (filter
               (fun r =>
                  text_leb (isoformat (naive 2024 1 2 0 0 0 0)) (date_of r))
               rows),
          at_rest t).
Proof.
  intros t. apply load_messages_since_narrowing. vm_compute. reflexivity.
Defined.

(** ** A run of the handler *)

Lemma store_each_app (events1 events2 : list (Message * (db_op -> bool)))
    (db : database) :
  store_each (events1 ++ events2) db
  = store_each events2 (store_each events1 db).
Proof.
  revert db. induction events1 as [|[m fails] events1 IH]; intros db;
    [reflexivity|].
  cbn [app store_each]. apply IH.
Qed.

Lemma store_message_appends (m : Message) (fails : db_op -> bool)
    (t : table) :
  snd (store_message m fails (at_rest t)) = at_rest t
  \/ (snd (store_message m fails (at_rest t))
      = at_rest (t ++ [row_of_message m])
      /\ falsy (msg_message m) = false).
Proof.
  destruct (falsy (msg_message m)) eqn:Htext.
  - left. unfold store_message. now rewrite Htext.
  - destruct (store_message_table m fails t) as [H|H]; [now left|].
    rewrite H. unfold insert_or_ignore.
    destruct (existsb (same_key (row_of_message m)) t);
      [now left|now right].
Qed.

Lemma store_message_ok (m : Message) (ok : db_op -> bool) (t : table) :
  ok op_connect = false -> ok op_execute = false -> ok op_commit = false ->
  snd (store_message m ok (at_rest t))
  = at_rest (if falsy (msg_message m) then t
             else insert_or_ignore (row_of_message m) t).
Proof.
  intros H1 H2 H3.
  unfold store_message, with_connection, execute_insert_or_ignore, commit,
    bind, call, ret.
  destruct (falsy (msg_message m)); [reflexivity|].
  rewrite H1. simpl. rewrite H2. simpl. now rewrite H3.
Qed.

Lemma store_each_appends (events : list (Message * (db_op -> bool))) :
  forall t : table,
    exists extra,
      store_each events (at_rest t) = at_rest (t ++ extra)
      /\ length extra <= length events
      /\ Forall (fun r => exists m fails,
                     In (m, fails) events
                     /\ falsy (msg_message m) = false
                     /\ r = row_of_message m) extra.
Proof.
  induction events as [|[m fails] events IH]; intros t.
  - exists []. rewrite app_nil_r. repeat split; [constructor|constructor].
  - cbn [store_each].
    destruct (store_message_appends m fails t) as [-> | [-> Htext]].
    + destruct (IH t) as (extra & E & Hlen & Hall). exists extra.
      repeat split; [exact E|simpl; lia|].
      eapply Forall_impl; [|exact Hall].
      intros r (m' & f' & Hin & H). exists m', f'. split; [now right|exact H].
    + destruct (IH (t ++ [row_of_message m])) as (extra & E & Hlen & Hall).
      exists (row_of_message m :: extra). rewrite <- app_assoc in E.
      repeat split; [exact E|simpl; lia|]. constructor.
      * exists m, fails. repeat split; [now left|assumption].
      * eapply Forall_impl; [|exact Hall].
        intros r (m' & f' & Hin & H). exists m', f'.
        split; [now right|exact H].
Qed.

Lemma create_if_not_exists_at_rest (fails : db_op -> bool) (t : table) :
  snd (create_if_not_exists fails (at_rest t)) = at_rest t.
Proof.
  unfold create_if_not_exists, with_connection, commit, bind, call, ret.
  destruct (fails op_connect); [reflexivity|]. simpl.
  destruct (fails op_execute); [reflexivity|]. simpl.
  destruct (fails op_commit); reflexivity.
Qed.

Lemma run_ingest_table (fails : db_op -> bool)
    (events : list (Message * (db_op -> bool))) (t : table) :
  snd (run_ingest fails events (at_rest t)) = at_rest t
  \/ run_ingest fails events (at_rest t)
     = (Returned tt, store_each events (at_rest t)).
Proof.
  unfold run_ingest.
  pose proof (create_if_not_exists_at_rest fails t) as H.
  destruct (create_if_not_exists fails (at_rest t)) as [[[]|e] db'];
    cbn [snd] in H; subst db'; [now right|now left].
Qed.

(** X11.  The ingestion only appends: whatever fails, the rows the table had
    stay as they were and in their order; at most one row is added for each
    message handled, and each added row is that of a handled message with a
    text. *)
Theorem run_ingest_appends (fails : db_op -> bool)
    (events : list (Message * (db_op -> bool))) (t : table) :
  exists extra,
    snd (run_ingest fails events (at_rest t)) = at_rest (t ++ extra)
    /\ length extra <= length events
    /\ Forall (fun r => exists m fails',
                   In (m, fails') events
                   /\ falsy (msg_message m) = false
                   /\ r = row_of_message m) extra.
Proof.
  destruct (run_ingest_table fails events t) as [-> | ->].
  - exists []. rewrite app_nil_r. repeat split; [apply Nat.le_0_l|constructor].
  - apply store_each_appends.
Qed.

Lemma existsb_insert_or_ignore (r : row) (t : table) :
  existsb (same_key r) (insert_or_ignore r t) = true.
Proof.
  unfold insert_or_ignore. destruct (existsb (same_key r) t) eqn:E;
    [exact E|].
  rewrite existsb_app. cbn [existsb]. unfold same_key at 2.
  rewrite !Z.eqb_refl. now rewrite orb_true_r.
Qed.

Lemma store_each_redelivery (events : list (Message * (db_op -> bool)))
    (m : Message) (ok again : db_op -> bool) (t : table) :
  In (m, ok) events ->
  ok op_connect = false -> ok op_execute = false -> ok op_commit = false ->
  store_each (events ++ [(m, again)]) (at_rest t)
  = store_each events (at_rest t).
Proof.
  intros Hin H1 H2 H3. rewrite store_each_app. cbn [store_each].
  apply in_split in Hin as (pre & post & ->).
  rewrite store_each_app. cbn [store_each].
  destruct (store_each_appends pre t) as (e1 & -> & _).
  rewrite store_message_ok by assumption.
  destruct (falsy (msg_message m)) eqn:Htext.
  - destruct (store_each_appends post (t ++ e1)) as (e2 & -> & _).
    unfold store_message. now rewrite Htext.
  - destruct (store_each_appends post
                (insert_or_ignore (row_of_message m) (t ++ e1)))
      as (e2 & -> & _).
    destruct (store_message_table m again
                (insert_or_ignore (row_of_message m) (t ++ e1) ++ e2))
      as [-> | ->]; [reflexivity|].
    f_equal. unfold insert_or_ignore at 1.
    now rewrite existsb_app, existsb_insert_or_ignore.
Qed.

(** X12.  Redelivery is harmless: when a message has been handled once with
    no sqlite3 call failing, handling it again later in the run, whatever
    fails then, leaves the table as the run without the second delivery
    leaves it. *)
Theorem run_ingest_redelivery (fails : db_op -> bool)
    (events : list (Message * (db_op -> bool)))
    (m : Message) (ok again : db_op -> bool) (t : table) :
  In (m, ok) events ->
  ok op_connect = false -> ok op_execute = false -> ok op_commit = false ->
  run_ingest fails (events ++ [(m, again)]) (at_rest t)
  = run_ingest fails events (at_rest t).
Proof.
  intros Hin H1 H2 H3. unfold run_ingest.
  pose proof (create_if_not_exists_at_rest fails t) as H.
  destruct (create_if_not_exists fails (at_rest t)) as [[[]|e] db'];
    cbn [snd] in H; subst db'; [|reflexivity].
  f_equal. now apply (store_each_redelivery events m ok).
Qed.

Lemma run_ingest_redelivery_witness :
  let m := plain_message 7 1 (utc 2024 1 2 9 0 0) (Some (lit "buy BTC")) in
  let other :=
    plain_message 7 2 (utc 2024 1 2 9 5 0) (Some (lit "sell ETH")) in
  run_ingest healthy ([(m, healthy); (other, healthy)] ++ [(m, healthy)])
    (at_rest [])
  = (Returned tt, at_rest [row_of_message m; row_of_message other]).
Proof.
  intros m other.
  rewrite (run_ingest_redelivery healthy [(m, healthy); (other, healthy)]
             m healthy healthy []); [reflexivity|now left| | |];
    reflexivity.
Defined.

(** ** Start-up *)

Lemma lstrip_incl (s : pystr) (c : char) : In c (lstrip s) -> In c s.
Proof.
  induction s as [|x s IH]; [intros []|].
  cbn [lstrip]. destruct (isspace x); [|trivial].
  intros H. right. now apply IH.
Qed.

Lemma strip_incl (s : pystr) (c : char) : In c (strip s) -> In c s.
Proof.
  unfold strip, rstrip. intros H. apply in_rev in H.
  apply lstrip_incl in H. apply in_rev in H. now apply lstrip_incl.
Qed.

Lemma lstrip_spaces (ws s : pystr) :
  forallb isspace ws = true -> lstrip (ws ++ s) = lstrip s.
Proof.
  induction ws as [|c ws IH]; [reflexivity|].
  cbn [forallb app lstrip]. intros H.
  apply andb_true_iff in H as [-> H]. now apply IH.
Qed.

Lemma forallb_rev {A : Type} (p : A -> bool) (l : list A) :
  forallb p (rev l) = forallb p l.
Proof.
  induction l as [|x l IH]; [reflexivity|].
  cbn [rev forallb]. rewrite forallb_app, IH. cbn [forallb].
  rewrite andb_true_r. apply andb_comm.
Qed.

Lemma rstrip_spaces (s ws : pystr) :
  forallb isspace ws = true -> rstrip (s ++ ws) = rstrip s.
Proof.
  intros H. unfold rstrip. rewrite rev_app_distr, lstrip_spaces;
    [reflexivity|now rewrite forallb_rev].
Qed.

Lemma strip_spaces (ws1 s ws2 : pystr) :
  forallb isspace ws1 = true -> forallb isspace ws2 = true ->
  strip (ws1 ++ s ++ ws2) = strip s.
Proof.
  intros H1 H2. unfold strip. rewrite lstrip_spaces by assumption.
  clear ws1 H1. induction s as [|c s IH].
  - cbn [app]. rewrite <- (app_nil_r ws2), lstrip_spaces by assumption.
    reflexivity.
  - cbn [app lstrip]. destruct (isspace c); [exact IH|].
    change (c :: s ++ ws2) with ((c :: s) ++ ws2).
    now apply rstrip_spaces.
Qed.

Lemma lstrip_map (f : char -> char) (s : pystr) :
  (forall c, isspace (f c) = isspace c) ->
  lstrip (map f s) = map f (lstrip s).
Proof.
  intros Hf. induction s as [|c s IH]; [reflexivity|].
  cbn [map lstrip]. rewrite Hf. now destruct (isspace c).
Qed.

Lemma strip_map (f : char -> char) (s : pystr) :
  (forall c, isspace (f c) = isspace c) ->
  strip (map f s) = map f (strip s).
Proof.
  intros Hf. unfold strip, rstrip.
  now rewrite lstrip_map, <- map_rev, lstrip_map, map_rev.
Qed.

Lemma isspace_lower_char (c : char) : isspace (lower_char c) = isspace c.
Proof.
  unfold lower_char. destruct (is_ascii_upper c) eqn:E; [|reflexivity].
  rewrite (letter_not_space c) by now left.
  apply letter_not_space. right.
  unfold is_ascii_upper, is_ascii_lower in *.
  rewrite in_range_iff in *. lia.
Qed.


Section StartupTheorems.
Context {B : Builtins}.

(** X14.  Without a TELEGRAM_API_ID and a TELEGRAM_API_HASH that are set and
    not empty, in the environment or in the [.env] file, [load_config]
    returns no configuration: it raises the RuntimeError that names them,
    unless DIGEST_HOUR or DIGEST_MINUTE is no integer, whose ValueError
    comes first. *)
Theorem load_config_needs_credentials (dotenv env : environ) :
  let e := load_dotenv dotenv env in
  falsy (e (lit "TELEGRAM_API_ID")) = true
  \/ falsy (e (lit "TELEGRAM_API_HASH")) = true ->
  load_config dotenv env
  = match int (getenv e (lit "DIGEST_HOUR") (lit "9")),
          int (getenv e (lit "DIGEST_MINUTE") (lit "0")) with
    | Some _, Some _ => inr (RuntimeError missing_credentials)
    | _, _ => inr ValueError
    end.
Proof.
  intros e H. unfold load_config. fold e.
  destruct (int (getenv e (lit "DIGEST_HOUR") (lit "9"))); [|reflexivity].
  destruct (int (getenv e (lit "DIGEST_MINUTE") (lit "0"))); [|reflexivity].
  destruct H as [-> | ->]; [reflexivity|].
  now rewrite orb_true_r.
Qed.

(** X15.  With the two credentials set, the identifier a plain numeral, and
    the four optional variables not set, [load_config] returns the
    credentials with the session ticker_session, the chat me and the time
    9:00. *)
Theorem load_config_defaults (dotenv env : environ) (id hash : pystr) :
  let e := load_dotenv dotenv env in
  e (lit "TELEGRAM_API_ID") = Some id -> plain_numeral id = true ->
  e (lit "TELEGRAM_API_HASH") = Some hash -> hash <> [] ->
  e (lit "TELEGRAM_SESSION") = None -> e (lit "TARGET_CHAT") = None ->
  e (lit "DIGEST_HOUR") = None -> e (lit "DIGEST_MINUTE") = None ->
  load_config dotenv env
  = inl {| api_id := numeral_value 0 id;
           api_hash := hash;
           session := lit "ticker_session";
           target_chat := lit "me";
           digest_hour := 9;
           digest_minute := 0 |}.
Proof.
  intros e Hid Hnum Hhash Hne Hs Ht Hh Hm.
  unfold load_config, getenv. fold e. rewrite Hid, Hhash, Hs, Ht, Hh, Hm.
  change (int (lit "9")) with (Some 9%Z).
  change (int (lit "0")) with (Some 0%Z).
  cbv iota beta. cbn [or_empty falsy].
  destruct id as [|c id]; [discriminate Hnum|].
  destruct hash as [|h hash]; [congruence|].
  cbn [orb]. unfold int. now rewrite Hnum.
Qed.

(** X16.  A default stands for a variable that is not set, not for one that
    is set to the empty text: with DIGEST_HOUR or DIGEST_MINUTE empty,
    [load_config] raises ValueError, whatever else is set. *)
Theorem load_config_empty_number (dotenv env : environ) :
  let e := load_dotenv dotenv env in
  e (lit "DIGEST_HOUR") = Some [] \/ e (lit "DIGEST_MINUTE") = Some [] ->
  load_config dotenv env = inr ValueError.
Proof.
  intros e H. unfold load_config, getenv. fold e.
  destruct H as [-> | ->]; [reflexivity|].
  now destruct (int _).
Qed.

End StartupTheorems.

Section ModeTheorems.
Context {B : Builtins}.



Lemma lower_ascii (s : pystr) :
  forallb is_ascii s = true -> lower s = map lower_char s.
Proof. intros H. unfold lower. now rewrite H. Qed.

Lemma strip_ascii (s : pystr) :
  forallb is_ascii s = true -> forallb is_ascii (strip s) = true.
Proof.
  rewrite !forallb_forall. intros H c Hc. apply H. now apply strip_incl.
Qed.

Lemma lower_strip (s : pystr) :
  forallb is_ascii s = true -> lower (strip s) = strip (map lower_char s).
Proof.
  intros H. rewrite lower_ascii by now apply strip_ascii.
  symmetry. apply strip_map. exact isspace_lower_char.
Qed.

(** X18.  The mode on the command line is read without regard to the case
    of its letters or to white space around it: two arguments of ASCII
    characters that differ only in these make [main] do the same. *)
Theorem main_mode_spelling (dotenv env : environ)
    (prog w w' ws1 ws2 : pystr) (rest : list pystr) :
  forallb is_ascii w = true -> forallb is_ascii w' = true ->
  map lower_char w = map lower_char w' ->
  forallb isspace ws1 = true -> forallb isspace ws2 = true ->
  main dotenv env (prog :: (ws1 ++ w ++ ws2) :: rest)
  = main dotenv env (prog :: w' :: rest).
Proof.
  intros Hw Hw' E H1 H2. unfold main, mode_word.
  rewrite strip_spaces by assumption.
  rewrite (lower_strip w), (lower_strip w') by assumption.
  now rewrite E.
Qed.

(** X19.  Without a mode nothing runs: with no argument on the command line
    and MODE not set, empty or blank, [main] raises, in this order, the
    error of [load_config], what the constructor of the client raises, or
    the usage error. *)
Theorem main_needs_mode (dotenv env : environ) (argv : list pystr) :
  length argv <= 1 ->
  forallb isspace (or_empty (load_dotenv dotenv env (lit "MODE"))) = true ->
  main dotenv env argv
  = match load_config dotenv env with
    | inl config =>
        match TelegramClient (session config) (api_id config)
                (api_hash config) with
        | Some e => inr e
        | None => inr (RuntimeError usage)
        end
    | inr e => inr e
    end.
Proof.
  intros Hlen Hblank. unfold main.
  destruct (load_config dotenv env) as [config|e]; [|reflexivity].
  destruct (TelegramClient _ _ _); [reflexivity|].
  assert (Hmode : mode_word (load_dotenv dotenv env) argv = []).
  { unfold mode_word.
    destruct argv as [|prog [|arg rest]]; [| |simpl in Hlen; lia];
      rewrite <- (app_nil_r (or_empty _)), <- (app_nil_l ([] : pystr)),
        app_assoc, <- app_assoc, strip_spaces by trivial;
      reflexivity. }
  now rewrite Hmode.
Qed.

End ModeTheorems.

(** ** The day before *)

(** X20.  The start of the digest's window, [now - timedelta(days=1)], is
    the day before at the same time: its ordinal is one less, its clock
    fields and offset are those of [now], it is a date of the calendar, and
    it comes strictly before [now] field by field.  Only for the first day
    of year 1 is there none. *)
Theorem minus_one_day_spec (d : datetime) :
  valid_datetime d -> valid_date d ->
  match minus_one_day d with
  | Some s =>
      (toordinal s + 1 = toordinal d)%N
      /\ valid_datetime s /\ valid_date s
      /\ hour s = hour d /\ minute s = minute d /\ second s = second d
      /\ microsecond s = microsecond d /\ utcoffset s = utcoffset d
      /\ datetime_leb s d = true /\ datetime_leb d s = false
  | None => year d = 1%N /\ month d = 1%N /\ day d = 1%N
  end.
Proof.
  unfold valid_datetime, valid_date. intros (Hy & Hm & Hd & Ht) Hdim.
  unfold minus_one_day.
  destruct (N.ltb_spec 1 (day d)) as [D|D];
    [|destruct (N.ltb_spec 1 (month d)) as [M|M];
      [|destruct (N.ltb_spec 1 (year d)) as [Y|Y]]].
  - unfold toordinal, datetime_leb, with_date. cbn [year month day hour
      minute second microsecond utcoffset].
    repeat split; try lia; try tauto.
    + now rewrite !lex_eq, lex_lt by lia.
    + now rewrite !lex_eq, lex_gt by lia.
  - pose proof (days_in_month_bounds (year d) (month d - 1)) as Hb.
    pose proof (days_before_month_succ (year d) (month d - 1) ltac:(lia))
      as Hs.
    replace (month d - 1 + 1)%N with (month d) in Hs by lia.
    unfold toordinal, datetime_leb, with_date. cbn [year month day hour
      minute second microsecond utcoffset].
    repeat split; try lia; try tauto.
    + now rewrite lex_eq, lex_lt by lia.
    + now rewrite lex_eq, lex_gt by lia.
  - pose proof (days_before_year_succ (year d - 1) ltac:(lia)) as Hs.
    replace (year d - 1 + 1)%N with (year d) in Hs by lia.
    assert (E12 : (days_before_month (year d - 1) 12
                   = 334 + (if is_leap (year d - 1) then 1 else 0))%N)
      by reflexivity.
    assert (E1 : days_before_month (year d) (month d) = 0%N).
    { replace (month d) with 1%N by lia. reflexivity. }
    unfold toordinal, datetime_leb, with_date. cbn [year month day hour
      minute second microsecond utcoffset].
    assert (Hdim' : (31 <= days_in_month (year d - 1) 12)%N)
      by reflexivity.
    repeat split; try lia; try tauto.
    + now rewrite lex_lt by lia.
    + now rewrite lex_gt by lia.
  - lia.
Qed.

Lemma minus_one_day_spec_witness :
  minus_one_day (naive 2024 3 1 9 30 0 0) = Some (naive 2024 2 29 9 30 0 0)
  /\ (toordinal (naive 2024 2 29 9 30 0 0) + 1
      = toordinal (naive 2024 3 1 9 30 0 0))%N.
Proof.
  split; [reflexivity|].
  assert (V : valid_datetime (naive 2024 3 1 9 30 0 0))
    by (unfold valid_datetime; simpl; lia).
  assert (D : valid_date (naive 2024 3 1 9 30 0 0))
    by (unfold valid_date; vm_compute; discriminate).
  exact (proj1 (minus_one_day_spec (naive 2024 3 1 9 30 0 0) V D)).
Defined.

(** ** The digest command *)

Lemma create_if_not_exists_cases (fails : db_op -> bool) (t : table) :
  create_if_not_exists fails (at_rest t)
  = (if fails op_connect then Raised (sqlite3_Error op_connect)
     else if fails op_execute then Raised (sqlite3_Error op_execute)
     else if fails op_commit then Raised (sqlite3_Error op_commit)
     else Returned tt,
     at_rest t).
Proof.
  unfold create_if_not_exists, with_connection, commit, bind, call, ret.
  destruct (fails op_connect); [reflexivity|]. simpl.
  destruct (fails op_execute); [reflexivity|]. simpl.
  destruct (fails op_commit); reflexivity.
Qed.

Lemma minus_one_day_some (d : datetime) :
  valid_datetime d -> (year d, month d, day d) <> (1, 1, 1)%N ->
  exists s, minus_one_day d = Some s.
Proof.
  unfold valid_datetime, minus_one_day. intros (Hy & Hm & Hd & _) Hfirst.
  destruct (N.ltb_spec 1 (day d)); [eauto|].
  destruct (N.ltb_spec 1 (month d)); [eauto|].
  destruct (N.ltb_spec 1 (year d)); [eauto|].
  exfalso. apply Hfirst. repeat f_equal; lia.
Qed.

Section DigestCommand.
Context {U : UnicodeData}.

Lemma build_digest_cases (since now : datetime) (fails : db_op -> bool)
    (t : table) :
  build_digest since now fails (at_rest t)
  = (if fails op_connect then Raised (sqlite3_Error op_connect)
     else if fails op_execute then Raised (sqlite3_Error op_execute)
     else if fails op_fetchall then Raised (sqlite3_Error op_fetchall)
     else Returned (render since now (select_since (isoformat since) t)),
     at_rest t).
Proof.
  unfold build_digest, load_messages_since, with_connection,
    execute_select_since, fetchall, bind, call, ret.
  destruct (fails op_connect); [reflexivity|]. simpl.
  destruct (fails op_execute); [reflexivity|]. simpl.
  destruct (fails op_fetchall); reflexivity.
Qed.

(** X21.  What [run_digest] does, whatever fails: it leaves the table as it
    was and calls [send_message] at most once, with the target chat and the
    digest of the rows from the day before [now] on.  It makes that call
    only after the schema check and the read have gone through: when a
    sqlite3 call fails, or there is no day before, nothing is sent. *)
Theorem run_digest_effect (target : pystr) (now now' : datetime)
    (fails fails' : db_op -> bool) (send_fails : bool) (t : table)
    (sent : outbox) :
  let '(result, db, sent') :=
    run_digest target now now' fails fails' send_fails (at_rest t) sent in
  db = at_rest t
  /\ match result with
     | inl _ | inr SendError =>
         exists since,
           minus_one_day now = Some since
           /\ sent' = sent ++ [(target,
                                render since now'
                                  (select_since (isoformat since) t))]
     | inr _ => sent' = sent
     end.
Proof.
  unfold run_digest. rewrite create_if_not_exists_cases.
  destruct (fails op_connect); [now split|].
  destruct (fails op_execute); [now split|].
  destruct (fails op_commit); [now split|].
  destruct (minus_one_day now) as [since|]; [|now split].
  rewrite build_digest_cases.
  destruct (fails' op_connect); [now split|].
  destruct (fails' op_execute); [now split|].
  destruct (fails' op_fetchall); [now split|].
  destruct send_fails; (split; [reflexivity|now exists since]).
Qed.

(** X22.  When no sqlite3 call fails, the send does not fail and [now] is
    not the first day of year 1, [run_digest] returns, having sent the
    digest of the window that starts on the day before. *)
Theorem run_digest_sends (target : pystr) (now now' : datetime)
    (fails fails' : db_op -> bool) (t : table) (sent : outbox) :
  valid_datetime now ->
  (year now, month now, day now) <> (1, 1, 1)%N ->
  fails op_connect = false -> fails op_execute = false ->
  fails op_commit = false ->
  fails' op_connect = false -> fails' op_execute = false ->
  fails' op_fetchall = false ->
  exists since,
    minus_one_day now = Some since
    /\ run_digest target now now' fails fails' false (at_rest t) sent
       = (inl tt, at_rest t,
          sent ++ [(target,
                    render since now' (select_since (isoformat since) t))]).
Proof.
  intros V Hfirst C1 E1 M1 C2 E2 F2.
  destruct (minus_one_day_some now V Hfirst) as (since & Es).
  exists since. split; [exact Es|].
  unfold run_digest.
  rewrite create_if_not_exists_cases, C1, E1, M1, Es, build_digest_cases,
    C2, E2, F2.
  reflexivity.
Qed.

End DigestCommand.

(** ** Instances *)

Lemma load_config_needs_credentials_witness :
  @load_config plain_builtins (fun _ => None)
    (env_of [("TELEGRAM_API_ID", "12345"); ("DIGEST_HOUR", "7")]%string)
  = inr (RuntimeError missing_credentials).
Proof.
  rewrite load_config_needs_credentials; [reflexivity|].
  right. reflexivity.
Defined.

Lemma load_config_defaults_witness :
  @load_config plain_builtins
    (env_of [("TELEGRAM_API_HASH", "0123abcd")]%string)
    (env_of [("TELEGRAM_API_ID", "12345")]%string)
  = inl {| api_id := 12345;
           api_hash := lit "0123abcd";
           session := lit "ticker_session";
           target_chat := lit "me";
           digest_hour := 9;
           digest_minute := 0 |}.
Proof.
  rewrite (load_config_defaults _ _ (lit "12345") (lit "0123abcd"));
    try reflexivity.
  discriminate.
Defined.

Lemma load_config_empty_number_witness :
  @load_config plain_builtins (fun _ => None)
    (env_of [("TELEGRAM_API_ID", "12345"); ("TELEGRAM_API_HASH", "0123abcd");
             ("DIGEST_MINUTE", "")]%string)
  = inr ValueError.
Proof.
  apply load_config_empty_number. right. reflexivity.
Defined.


Lemma main_mode_spelling_witness :
  let env :=
    env_of [("TELEGRAM_API_ID", "12345"); ("TELEGRAM_API_HASH", "0123abcd");
            ("TARGET_CHAT", "@desk")]%string in
  @main plain_builtins (fun _ => None) env
    [lit "app.py"; lit " " ++ lit "Digest" ++ [newline]]
  = @main plain_builtins (fun _ => None) env [lit "app.py"; lit "DIGEST"].
Proof.
  intros env.
  apply (main_mode_spelling (fun _ => None) env (lit "app.py")
           (lit "Digest") (lit "DIGEST") (lit " ") [newline] []);
    reflexivity.
Defined.

Lemma main_needs_mode_witness :
  @main plain_builtins (fun _ => None)
    (env_of [("TELEGRAM_API_ID", "12345"); ("TELEGRAM_API_HASH", "0123abcd");
             ("MODE", "  ")]%string)
    [lit "app.py"]
  = inr (RuntimeError usage)
  /\ @main plain_builtins (fun _ => None)
       (env_of [("TELEGRAM_API_ID", "0"); ("TELEGRAM_API_HASH", "0123abcd")]
               %string)
       [lit "app.py"]
     = inr ValueError.
Proof.
  split; (rewrite main_needs_mode; [reflexivity|simpl; lia|reflexivity]).
Defined.

Lemma run_digest_sends_witness :
  exists since,
    minus_one_day (naive 2024 3 1 9 30 0 0) = Some since
    /\ @run_digest basic_latin (lit "me") (naive 2024 3 1 9 30 0 0)
         (naive 2024 3 1 9 30 1 0) healthy healthy false (at_rest []) []
       = (inl tt, at_rest [],
          [(lit "me",
            @render basic_latin since (naive 2024 3 1 9 30 1 0)
              (select_since (isoformat since) []))]).
Proof.
  apply (@run_digest_sends basic_latin (lit "me") (naive 2024 3 1 9 30 0 0)
           (naive 2024 3 1 9 30 1 0) healthy healthy [] []);
    try reflexivity.
  - unfold valid_datetime. simpl. lia.
  - discriminate.
Defined.

(** ** From the store to the digest *)

Section StoreToDigest.
Context {U : UnicodeData}.

Lemma ticker_text_not_falsy (text : option pystr) (ticker : pystr) :
  In ticker (extract_tickers (or_empty text)) -> falsy text = false.
Proof. destruct text as [[|c s]|]; simpl; tauto. Qed.

(** X13.  What is stored is counted: once a message with a new pair has
    been stored, a digest from a [since] that carries the offset of the
    message's date and is not after it in time, both dates of the calendar,
    lists tickers, and counts each ticker of the message at least once. *)
Theorem stored_ticker_is_counted (t : table) (m : Message)
    (since now : datetime) (ticker : pystr) :
  In ticker (extract_tickers (or_empty (msg_message m))) ->
  ~ In (msg_chat_id m, msg_id m) (map key_of_row t) ->
  valid_datetime since -> valid_date since ->
  valid_datetime (msg_date m) -> valid_date (msg_date m) ->
  utcoffset since = utcoffset (msg_date m) ->
  (instant since <= instant (msg_date m))%Z ->
  let db := snd (store_message m healthy (at_rest t)) in
  exists rows,
    load_messages_since since healthy db = (Returned rows, db)
    /\ 1 <= counter_get ticker (fst (aggregate rows))
    /\ build_digest since now healthy db
       = (Returned (strip (join_lines (digest_lines since now
                                         (aggregate rows)))),
          db).
Proof.
  intros Htk Hnew Vs Ds Vm Dm Hoff Hle db. subst db.
  assert (Hdate : text_leb (isoformat since) (isoformat (msg_date m)) = true)
    by now apply isoformat_instant_order.
  rewrite store_message_healthy, (ticker_text_not_falsy _ _ Htk).
  cbn [snd]. rewrite insert_or_ignore_new by assumption.
  rewrite load_messages_since_healthy, build_digest_healthy.
  set (rows := select_since (isoformat since) (t ++ [row_of_message m])).
  assert (Hrow : In (project (row_of_message m)) rows).
  { unfold rows, select_since. apply in_map.
    apply (Permutation_in _ (Permutation_sym (order_by_date_perm _))).
    apply filter_In. split; [|exact Hdate].
    apply in_app_iff. right. now left. }
  assert (Hev : In (ticker, preview_of (msg_message m)) (mentions rows)).
  { apply In_mentions. exists (project (row_of_message m)).
    repeat split; assumption. }
  exists rows. split; [reflexivity|]. split.
  - rewrite aggregate_counts.
    assert (H : In (ticker, preview_of (msg_message m))
                  (mentions_of ticker (mentions rows))).
    { apply filter_In. split; [assumption|]. apply pystr_eqb_refl. }
    destruct (mentions_of ticker (mentions rows)); [destruct H|].
    simpl. lia.
  - unfold render.
    destruct (fst (aggregate rows)) eqn:E; [|reflexivity].
    exfalso. revert E. apply aggregate_nonempty.
    exists (project (row_of_message m)). split; [assumption|].
    cbn [project snd text row_of_message]. intros E. rewrite E in Htk.
    destruct Htk.
Qed.

End StoreToDigest.

Lemma stored_ticker_is_counted_witness :
  let m := plain_message 7 1 (utc 2024 1 2 9 0 0) (Some (lit "buy $btc")) in
  exists rows,
    load_messages_since (utc 2024 1 2 0 0 0) healthy
      (snd (store_message m healthy (at_rest [])))
    = (Returned rows, snd (store_message m healthy (at_rest [])))
    /\ 1 <= counter_get (lit "BTC") (fst (@aggregate basic_latin rows))
    /\ @build_digest basic_latin (utc 2024 1 2 0 0 0)
         (naive 2024 1 3 0 0 0 0) healthy
         (snd (store_message m healthy (at_rest [])))
       = (Returned
            (strip (join_lines
                      (@digest_lines (utc 2024 1 2 0 0 0)
                         (naive 2024 1 3 0 0 0 0)
                         (@aggregate basic_latin rows)))),
          snd (store_message m healthy (at_rest []))).
Proof.
  intros m.
  assert (H : In (lit "BTC")
                (@extract_tickers basic_latin (or_empty (msg_message m))))
    by (vm_compute; right; left; reflexivity).
  apply (@stored_ticker_is_counted basic_latin [] m (utc 2024 1 2 0 0 0)
           (naive 2024 1 3 0 0 0 0) (lit "BTC") H).
  - intros [].
  - unfold valid_datetime. simpl. lia.
  - unfold valid_date. vm_compute. discriminate.
  - unfold valid_datetime. simpl. lia.
  - unfold valid_date. vm_compute. discriminate.
  - reflexivity.
  - vm_compute. discriminate.
Defined.

(** ** Case *)

Section Case.
Context {U : UnicodeData}.

Lemma upper_lower_char (c : char) : upper_char (lower_char c) = upper_char c.
Proof.
  unfold lower_char. destruct (is_ascii_upper c) eqn:E; [|reflexivity].
  unfold is_ascii_upper in E. apply in_range_iff in E.
  unfold upper_char, is_ascii_lower, in_range.
  replace ((97 <=? c + 32) && (c + 32 <=? 122))%N with true
    by (symmetry; apply andb_true_iff; split; apply N.leb_le; lia).
  replace ((97 <=? c) && (c <=? 122))%N with false
    by (symmetry; apply andb_false_iff; left; apply N.leb_gt; lia).
  replace (c <? 128)%N with true by (symmetry; apply N.ltb_lt; lia).
  f_equal. lia.
Qed.

Lemma upper_lower (s : pystr) : upper (map lower_char s) = upper s.
Proof.
  unfold upper. induction s as [|c s IH]; [reflexivity|].
  cbn [map flat_map]. now rewrite upper_lower_char, IH.
Qed.

(** X3.  The extraction does not look at the case of the letters A-Z: two
    texts that differ only in it give the same tickers. *)
Theorem extract_tickers_ignores_case (a b : pystr) :
  map lower_char a = map lower_char b ->
  extract_tickers a = extract_tickers b.
Proof.
  intros E. rewrite !extract_tickers_runs.
  now rewrite <- (upper_lower a), <- (upper_lower b), E.
Qed.

End Case.

Lemma extract_tickers_ignores_case_witness :
  @extract_tickers basic_latin (lit "Long sol, short ADA")
  = @extract_tickers basic_latin (lit "LONG SOL, short ada").
Proof.
  apply extract_tickers_ignores_case. reflexivity.
Defined.


(** ** The size of the digest *)

Lemma length_flat_map_le {A B : Type} (f : A -> list B) (n : nat)
    (l : list A) :
  (forall x, In x l -> length (f x) <= n) ->
  length (flat_map f l) <= n * length l.
Proof.
  induction l as [|x l IH]; intros H; [simpl; lia|].
  cbn [flat_map length]. rewrite length_app.
  assert (Hx : length (f x) <= n) by (apply H; now left).
  assert (Hl : length (flat_map f l) <= n * length l)
    by (apply IH; intros y Hy; apply H; now right).
  nia.
Qed.

Section Size.
Context {U : UnicodeData}.

(** X23.  The digest stays short however many messages the window holds:
    it has at most 78 lines, three at the head and at most five for each of
    at most 15 tickers, and a sample line has at most 164 characters. *)
Theorem digest_lines_bounded (since now : datetime)
    (rows : list result_row) :
  length (digest_lines since now (aggregate rows)) <= 78
  /\ forall ticker sample,
       In sample (samples_of ticker (snd (aggregate rows))) ->
       length (sample_line sample) <= 164.
Proof.
  split.
  - rewrite digest_lines_eq, length_app. cbn [length].
    assert (H : length (flat_map (ticker_block (snd (aggregate rows)))
                          (most_common 15 (fst (aggregate rows))))
                <= 5 * length (most_common 15 (fst (aggregate rows)))).
    { apply length_flat_map_le. intros [ticker count] _.
      unfold ticker_block. cbn [length].
      rewrite length_app, length_map. cbn [length].
      change (fst (defaultdict_get ticker (snd (aggregate rows))))
        with (samples_of ticker (snd (aggregate rows))).
      rewrite aggregate_samples.
      pose proof (firstn_le_length 3 (previews_for ticker rows)). lia. }
    assert (H15 : length (most_common 15 (fst (aggregate rows))) <= 15)
      by apply firstn_le_length.
    lia.
  - intros ticker sample Hin. rewrite aggregate_samples in Hin.
    apply In_firstn in Hin. unfold previews_for, new_samples in Hin.
    apply in_map_iff in Hin as (p & <- & _).
    pose proof (firstn_le_length 160 p) as Hp. revert Hp.
    generalize (firstn 160 p) as s. intros s Hs.
    unfold sample_line. rewrite !length_app.
    change (length (lit "  ")) with 2. change (length (lit " ")) with 1.
    cbn [length]. lia.
Qed.

End Size.

(** ** The bullet line of every rendered ticker *)

Lemma lstrip_head (s : pystr) :
  lstrip s = [] \/ exists c s', lstrip s = c :: s' /\ isspace c = false.
Proof.
  induction s as [|c s IH]; [now left|].
  cbn [lstrip]. destruct (isspace c) eqn:E; [exact IH|].
  right. now exists c, s.
Qed.

Lemma lstrip_split (s : pystr) : exists ws, s = ws ++ lstrip s.
Proof.
  induction s as [|c s (ws & IH)]; [now exists []|].
  cbn [lstrip]. destruct (isspace c).
  - exists (c :: ws). cbn [app]. now rewrite <- IH.
  - now exists [].
Qed.

Lemma rstrip_split (s : pystr) : exists ws, s = rstrip s ++ ws.
Proof.
  unfold rstrip. destruct (lstrip_split (rev s)) as (ws & E).
  exists (rev ws). rewrite <- rev_app_distr, <- E. now rewrite rev_involutive.
Qed.

Lemma rstrip_last (s : pystr) :
  rstrip s = []
  \/ exists s1 c, rstrip s = s1 ++ [c] /\ isspace c = false.
Proof.
  unfold rstrip. destruct (lstrip_head (rev s)) as [->|(c & s' & -> & Hc)].
  - now left.
  - right. exists (rev s'), c. now split.
Qed.

Lemma rstrip_cons_nonspace (c : char) (s : pystr) :
  isspace c = false -> rstrip (c :: s) = c :: rstrip s.
Proof. intros Hc. exact (rstrip_app_nonspace [] s c Hc). Qed.

(** A preview starts with other than white space. *)
Lemma preview_head (text : option pystr) :
  preview_of text = []
  \/ exists c p, preview_of text = c :: p /\ isspace c = false.
Proof.
  unfold preview_of, strip.
  destruct (lstrip_head (or_empty text)) as [->|(c & s' & -> & Hc)];
    [now left|].
  right. rewrite rstrip_cons_nonspace by assumption.
  cbn [replace_newlines map].
  destruct (N.eqb_spec c newline) as [->|_]; [discriminate Hc|].
  now eexists _, _.
Qed.

(** Stripping a text that starts with other than white space leaves in it
    a line and the line that follows, the latter up to white space at its
    end. *)
Lemma strip_keeps_next_line (h j la mark s tail : pystr) (c0 : char) :
  isspace c0 = false -> rstrip s <> [] ->
  exists z,
    strip ((c0 :: h) ++ j ++ la ++ newline :: (mark ++ s) ++ tail)
    = (c0 :: h) ++ j ++ la ++ newline :: mark ++ rstrip s ++ z.
Proof.
  intros H0 Hs.
  destruct (rstrip_split s) as (ws & E).
  destruct (rstrip_last s) as [E0|(s1 & c & El & Hc)]; [congruence|].
  exists (rstrip (ws ++ tail)).
  remember (rstrip s) as rs eqn:Hrs. rewrite E, El. clear Hrs E El Hs.
  transitivity
    (strip ((c0 :: h ++ j ++ la ++ newline :: mark ++ s1)
            ++ c :: ws ++ tail)).
  { f_equal. cbn [app].
    repeat (rewrite <- app_assoc || rewrite <- app_comm_cons).
    reflexivity. }
  rewrite strip_keeps_head by assumption. cbn [app].
  repeat (rewrite <- app_assoc || rewrite <- app_comm_cons). reflexivity.
Qed.

Section SampleRendered.
Context {U : UnicodeData}.
Hypothesis space_is_caseless : forall c, isspace c = true -> uni_upper c = [c].

(** C10.  Provided white space is caseless in the Unicode tables: a text
    from which a ticker is extracted has a character that upper-cases to a
    letter, so its preview is not empty, and every ticker in the counter has
    at least one sample, the first being the preview, cut to 160, of its
    first mention.  In the digest, every rendered ticker has a bullet line:
    in the list of lines its line is followed by two spaces, a bullet, a
    space and that sample, and the text returned holds its line, a line
    break and that bullet line, which is the sample up to white space at its
    end and has a character other than white space. *)
Theorem counted_ticker_has_sample (t : table) (since now : datetime)
    (ticker : pystr) (n : nat) :
  let rows := select_since (isoformat since) t in
  In (ticker, n) (fst (aggregate rows)) ->
  (forall r, In r rows -> extract_tickers (or_empty (snd r)) <> [] ->
      (exists c l, In c (or_empty (snd r)) /\ In l (upper_char c)
                   /\ is_ascii_upper l = true)
      /\ preview_of (snd r) <> [])
  /\ exists ev later rest,
       let sample := firstn 160 (snd ev) in
       mentions_of ticker (mentions rows) = ev :: later
       /\ sample <> [] /\ rstrip sample <> []
       /\ samples_of ticker (snd (aggregate rows)) = sample :: rest
       /\ (In (ticker, n) (most_common 15 (fst (aggregate rows))) ->
           (exists pre post,
               digest_lines since now (aggregate rows)
               = pre ++ ticker_line ticker n
                        :: (lit "  " ++ [bullet] ++ lit " " ++ sample)
                        :: post)
           /\ exists x z,
               build_digest since now healthy (at_rest t)
               = (Returned
                    (x ++ ticker_line ticker n
                       ++ newline :: lit "  " ++ [bullet] ++ lit " "
                       ++ rstrip sample ++ z),
                  at_rest t)).
Proof.
  intros rows Hin.
  destruct (first_sample_of_counted space_is_caseless rows ticker n Hin)
    as (Hrows & ev & later & rest & Hm & Hne & Hs & Hblock).
  split; [exact Hrows|].
  exists ev, later, rest. cbv zeta.
  assert (Hhead : exists c p, firstn 160 (snd ev) = c :: p
                              /\ isspace c = false).
  { assert (Hev : In ev (mentions rows)).
    { assert (H : In ev (mentions_of ticker (mentions rows)))
        by (rewrite Hm; now left).
      now apply filter_In in H. }
    apply In_mentions in Hev as (r & _ & Hp & _).
    destruct (preview_head (snd r)) as [E|(c & p & E & Hc)];
      rewrite Hp, E in *; [now destruct Hne|].
    now exists c, (firstn 159 p). }
  destruct Hhead as (c1 & p1 & Esample & Hc1).
  assert (Hr : rstrip (firstn 160 (snd ev)) <> []).
  { rewrite Esample, rstrip_cons_nonspace by assumption. discriminate. }
  repeat (split; [assumption|]).
  intros Hranked.
  apply in_split in Hranked as (l1 & l2 & Hranked).
  assert (Hlines :
    digest_lines since now (aggregate rows)
    = (header :: window_line since now :: []
         :: flat_map (ticker_block (snd (aggregate rows))) l1)
      ++ ticker_line ticker n
         :: (lit "  " ++ [bullet] ++ lit " " ++ firstn 160 (snd ev))
         :: (map sample_line rest ++ [[]])
            ++ flat_map (ticker_block (snd (aggregate rows))) l2).
  { rewrite digest_lines_eq, Hranked, flat_map_app. cbn [flat_map].
    rewrite Hblock. cbn [app]. do 3 f_equal. }
  split; [eauto|].
  rewrite build_digest_healthy. fold rows. unfold render.
  destruct (fst (aggregate rows)) as [|item items] eqn:Ecounts;
    [try rewrite Ecounts in Hin; destruct Hin|].
  clear Ecounts. rewrite Hlines.
  destruct (join_lines_split
              (header :: window_line since now :: []
                 :: flat_map (ticker_block (snd (aggregate rows))) l1)
              ((lit "  " ++ [bullet] ++ lit " " ++ firstn 160 (snd ev))
                 :: (map sample_line rest ++ [[]])
                    ++ flat_map (ticker_block (snd (aggregate rows))) l2)
              (ticker_line ticker n)) as (j1 & Ej & Hj1).
  destruct (Hj1 _ _ eq_refl) as (j1' & ->). clear Hj1.
  rewrite Ej. clear Ej. unfold after_line at 1. rewrite join_lines_cons.
  set (tail := after_line _).
  destruct (strip_keeps_next_line (lit "aily Telegram Ticker Digest") j1'
              (ticker_line ticker n) (lit "  " ++ [bullet] ++ lit " ")
              (firstn 160 (snd ev)) tail 68%N eq_refl Hr) as (z & Ez).
  exists (header ++ j1'), z. do 2 f_equal.
  etransitivity; [|etransitivity; [exact Ez|]];
    repeat (rewrite <- app_assoc || rewrite <- app_comm_cons); reflexivity.
Qed.

End SampleRendered.

Lemma counted_ticker_has_sample_witness :
  let t := [row_of_message
              (plain_message 7 1 (utc 2024 1 2 3 4 5)
                 (Some (lit "  buy $btc now  ")))] in
  let since := naive 2024 1 2 0 0 0 0 in
  let now := naive 2024 1 3 0 0 0 0 in
  exists x z,
    @build_digest basic_latin since now healthy (at_rest t)
    = (Returned
         (x ++ ticker_line (lit "BTC") 1
            ++ newline :: lit "  " ++ [bullet] ++ lit " "
            ++ lit "buy $btc now" ++ z),
       at_rest t).
Proof.
  intros t since now.
  assert (Hin : In (lit "BTC", 1)
                  (fst (@aggregate basic_latin
                          (select_since (isoformat since) t))))
    by (vm_compute; right; left; reflexivity).
  assert (Hranked : In (lit "BTC", 1)
                      (most_common 15
                         (fst (@aggregate basic_latin
                                 (select_since (isoformat since) t)))))
    by (vm_compute; right; left; reflexivity).
  destruct (@counted_ticker_has_sample basic_latin (fun c _ => eq_refl)
              t since now (lit "BTC") 1 Hin)
    as (_ & ev & later & rest & Hm & _ & _ & _ & Htext).
  assert (Hev : mentions_of (lit "BTC")
                  (@mentions basic_latin (select_since (isoformat since) t))
                = [(lit "BTC", lit "buy $btc now")])
    by (vm_compute; reflexivity).
  rewrite Hev in Hm. injection Hm as <- <-.
  destruct (proj2 (Htext Hranked)) as (x & z & E).
  exists x, z. exact E.
Defined.
